(** * yt_dl: the YouTube downloader glue, embedded and verified

    Source: [src/yt_dl/downloader.py], class [YouTubeDownloader].

    Python strings are sequences of Unicode code points; they are modelled
    as lists of code points ([N]).  The file system is a finite map from
    paths to file contents; directories are not modelled, and of
    [__init__] only the recorded output path is kept.  Code that can raise
    runs in a small state-and-exception monad over the file system and a
    journal of the calls made to the two external libraries (pytube and
    moviepy). *)

From Stdlib Require Import NArith ZArith List String Ascii Bool Lia Sorted.
From stdpp Require Import gmap list strings.
Import ListNotations.

Local Open Scope N_scope.

(** ** Python strings *)

Module PyStr.

Definition char := N.
Definition str := list N.

(** A literal written in the source, as its code points. *)
Fixpoint lit (s : string) : str :=
  match s with
  | EmptyString => []
  | String a r => N_of_ascii a :: lit r
  end.

(** [str.isspace] on one character, the set CPython's
    [Py_UNICODE_ISSPACE] accepts; [str.strip()] trims exactly these. *)
Definition isspace (c : char) : bool :=
  ((9 <=? c) && (c <=? 13))
  || ((28 <=? c) && (c <=? 32))
  || (c =? 133) || (c =? 160) || (c =? 5760)
  || ((8192 <=? c) && (c <=? 8202))
  || (c =? 8232) || (c =? 8233) || (c =? 8239) || (c =? 8287)
  || (c =? 12288).

(** [s.replace(old, new)] for one-character [old] and [new]. *)
Definition replace (old new : char) (s : str) : str :=
  List.map (fun c => if c =? old then new else c) s.

Fixpoint lstrip (s : str) : str :=
  match s with
  | [] => []
  | c :: r => if isspace c then lstrip r else s
  end.

Definition rstrip (s : str) : str := reverse (lstrip (reverse s)).

(** [s.strip()] *)
Definition strip (s : str) : str := rstrip (lstrip s).

(** [s.endswith(suffix)] *)
Definition endswith (s suffix : str) : bool :=
  bool_decide (drop (length s - length suffix)%nat s = suffix).

(** [s <= t] on strings: lexicographic on code points. *)
Fixpoint str_leb (s t : str) : bool :=
  match s, t with
  | [], _ => true
  | _ :: _, [] => false
  | a :: s', b :: t' =>
      if a <? b then true else if a =? b then str_leb s' t' else false
  end.

End PyStr.
Import PyStr.

(** ** The filename sanitizer (downloader.py, [_sanitize_filename]) *)

(** [invalid_chars], the nine characters of the source's literal, as code
    points: less-than, greater-than, colon, double quote, slash, backslash,
    vertical bar, question mark, asterisk. *)
Definition invalid_chars : str := [60; 62; 58; 34; 47; 92; 124; 63; 42].

Definition underscore : char := 95.

Definition _sanitize_filename (filename : str) : str :=
  strip (fold_left (fun filename char => replace char underscore filename)
                   invalid_chars filename).

(** The substitution the loop amounts to on one character. *)
Definition subst_char (c : char) : char :=
  if bool_decide (c ∈ invalid_chars) then underscore else c.

(** ** Exceptions and results *)

(** The exceptions met in this code, all of them subclasses of
    [Exception], which is what the handlers catch.  Both handlers of the
    download functions treat them alike; [str(e)] is the message. *)
Inductive exn :=
| PytubeError (msg : str)
| FileNotFoundError (msg : str)
| AttributeError (msg : str)
| Exception (msg : str).

Definition exn_str (e : exn) : str :=
  match e with
  | PytubeError m | FileNotFoundError m | AttributeError m | Exception m => m
  end.

Inductive result (A : Type) :=
| Ok (a : A)
| Raise (e : exn).
Arguments Ok {A} a.
Arguments Raise {A} e.

(** ** Stream descriptors and the provider's stream query *)

Record Stream := {
  itag : N;
  resolution : option str;
  subtype : str;
  is_progressive : bool;
  is_adaptive : bool;
  includes_audio_track : bool;
  includes_video_track : bool;
  abr : option str
}.

Definition StreamQuery := list Stream.

(** The keyword arguments of [StreamQuery.filter] the source uses. *)
Inductive kwarg :=
| progressive
| adaptive
| only_audio
| only_video
| file_extension (ext : str)
| kw_resolution (res : str).

Definition opt_str_eqb (o : option str) (v : str) : bool :=
  match o with
  | Some u => bool_decide (u = v)
  | None => false
  end.

(** Modelled from the spec: pytube's [StreamQuery.filter] is not part of
    the repository; a keyword keeps the streams whose attribute matches
    it (section 4.1: matching the requested container and the exact
    resolution string, progressive or adaptive, audio-only or video-only).
    Every keyword the source passes is taken as the test it names, also a
    resolution that is the empty string. *)
Definition kw_matches (k : kwarg) (s : Stream) : bool :=
  match k with
  | progressive => is_progressive s
  | adaptive => is_adaptive s
  | only_audio => includes_audio_track s && negb (includes_video_track s)
  | only_video => includes_video_track s && negb (includes_audio_track s)
  | file_extension ext => bool_decide (subtype s = ext)
  | kw_resolution res => opt_str_eqb (resolution s) res
  end.

Definition sq_filter (kws : list kwarg) (q : StreamQuery) : StreamQuery :=
  List.filter (fun s => forallb (fun k => kw_matches k s) kws) q.

(** The attributes the source orders by. *)
Inductive attribute := attr_resolution | attr_abr.

Definition getattr (a : attribute) (s : Stream) : option str :=
  match a with
  | attr_resolution => resolution s
  | attr_abr => abr s
  end.

Definition attr_val (a : attribute) (s : Stream) : str :=
  match getattr a s with Some v => v | None => [] end.

(** Python's [sorted(l, key=...)]: a stable sort.  [leb a b] is the test
    [key a <= key b]; an element is put before the first one that is not
    smaller, so equal keys keep the order of the input. *)
Fixpoint insert_sorted {A} (leb : A -> A -> bool) (x : A) (l : list A) : list A :=
  match l with
  | [] => [x]
  | y :: r => if leb x y then x :: l else y :: insert_sorted leb x r
  end.

Definition sorted {A} (leb : A -> A -> bool) (l : list A) : list A :=
  fold_right (insert_sorted leb) [] l.

(** [q.desc()], [q.first()], [q.last()], and the truth value of a query:
    a query is a sequence, false when empty; [first] and [last] give
    [None] on an empty one. *)
Definition desc (q : StreamQuery) : StreamQuery := reverse q.
Definition first (q : StreamQuery) : option Stream := head q.
Definition last_ (q : StreamQuery) : option Stream := last q.
Definition truthy (q : StreamQuery) : bool :=
  match q with [] => false | _ => true end.

(** ** The video object, the file system and the external libraries *)

Definition datetime := Z.

(** A [YouTube] object.  Its attributes are properties that fetch on
    access and may raise; within one call an attribute gives the same
    outcome each time it is read (pytube caches what it fetched). *)
Record YT := {
  yt_title : result str;
  yt_author : result str;
  yt_length : result Z;
  yt_views : result Z;
  yt_publish_date : result (option datetime);
  yt_description : result (option str);
  yt_streams : result StreamQuery
}.

(** An [AudioFileClip], known by the file it was opened on. *)
Record Clip := { clip_filename : str }.

(** Files by path. *)
Abbreviation FS := (gmap str (list N)).

(** What the code takes from outside: one Python builtin left abstract
    and the operations of pytube, tempfile and moviepy.
    - [int_digits v] is [int] of the characters of [v] that [str.isdigit]
      accepts, joined: the sort key of pytube's [order_by]; [None] when
      [int] raises [ValueError];
    - [YouTube url] is the constructor;
    - [stream_download s output_path filename] is [s.download(...)],
      returning the path written;
    - [temp_stem] is the name [tempfile] picks, before the suffix;
    - [AudioFileClip], [write_audiofile], [close] are moviepy's;
    - [str_repr v] is [repr(v)] of a string, as it stands in the message
      of an [OSError]: the quoting and the escapes depend on which
      characters Python's Unicode tables hold printable. *)
Record World := {
  int_digits : str -> option Z;
  str_repr : str -> str;
  YouTube : str -> result YT;
  stream_download : Stream -> option str -> str -> FS -> result str * FS;
  temp_stem : FS -> str;
  AudioFileClip : str -> FS -> result Clip * FS;
  write_audiofile : Clip -> str -> FS -> result unit * FS;
  close : Clip -> FS -> result unit * FS
}.

(** The calls made to pytube's transfer and to moviepy, in order. *)
Inductive call :=
| CallDownload (s : Stream) (output_path : option str) (filename : str)
| CallAudioFileClip (path : str)
| CallWriteAudiofile (c : Clip) (output : str)
| CallClose (c : Clip).

Record State := {
  files : FS;
  journal : list call
}.

(** ** The monad of code that reads and writes files and may raise *)

Definition M (A : Type) : Type := State -> result A * State.

Definition ret {A} (a : A) : M A := fun st => (Ok a, st).

Definition raise {A} (e : exn) : M A := fun st => (Raise e, st).

Definition bind {A B} (m : M A) (k : A -> M B) : M B :=
  fun st =>
    match m st with
    | (Ok a, st') => k a st'
    | (Raise e, st') => (Raise e, st')
    end.

(** An attribute access or a pure call that may raise. *)
Definition lift {A} (r : result A) : M A := fun st => (r, st).

(** [try: body except Exception as e: handler e].  What the body did to
    the files before it raised stays done. *)
Definition try_except {A} (body : M A) (handler : exn -> M A) : M A :=
  fun st =>
    match body st with
    | (Ok a, st') => (Ok a, st')
    | (Raise e, st') => handler e st'
    end.

(** A call into an external library: run it on the files, note it. *)
Definition external {A} (c : call) (f : FS -> result A * FS) : M A :=
  fun st =>
    let (r, fs') := f (files st) in
    (r, {| files := fs'; journal := journal st ++ [c] |}).

Declare Scope py_scope.
Delimit Scope py_scope with py.
Notation "'let!' x ':=' m 'in' k" := (bind m (fun x => k))
  (at level 10, x name, m at level 200, k at level 200, only parsing) : py_scope.
Notation "'do!' m 'in' k" := (bind m (fun _ => k))
  (at level 10, m at level 200, k at level 200, only parsing) : py_scope.
Local Open Scope py_scope.

(** ** os and tempfile *)

(** [os.path.join(a, b)] of posixpath. *)
Definition os_path_join (a b : str) : str :=
  match b with
  | 47 :: _ => b
  | _ =>
      match a with
      | [] => b
      | _ => if endswith a (lit "/") then a ++ b else a ++ lit "/" ++ b
      end
  end.

(** [str(e)] of the [FileNotFoundError] that [os] raises for a missing
    file: the one path, or the two of a rename, in their [repr]. *)
Definition no_such_file (w : World) (path : str) (path2 : option str) : exn :=
  FileNotFoundError
    (lit "[Errno 2] No such file or directory: " ++ str_repr w path
       ++ match path2 with
          | Some p2 => lit " -> " ++ str_repr w p2
          | None => []
          end).

(** [os.rename(src, dst)] between files: the file moves, replacing what
    was at [dst]. *)
Definition os_rename (w : World) (src dst : str) : M unit :=
  fun st =>
    match files st !! src with
    | None => (Raise (no_such_file w src (Some dst)), st)
    | Some content =>
        (Ok tt, {| files := <[dst := content]> (delete src (files st));
                   journal := journal st |})
    end.

(** [os.unlink(path)] *)
Definition os_unlink (w : World) (path : str) : M unit :=
  fun st =>
    match files st !! path with
    | None => (Raise (no_such_file w path None), st)
    | Some _ =>
        (Ok tt, {| files := delete path (files st); journal := journal st |})
    end.

(** ** The downloader (downloader.py, class [YouTubeDownloader]) *)

Record YouTubeDownloader := { output_path : str }.

Definition mp4 : str := lit "mp4".
Definition dot_mp4 : str := lit ".mp4".
Definition dot_mp3 : str := lit ".mp3".

(** The values of the dictionary [get_video_info] returns. *)
Inductive pyval :=
| PyNone
| PyStr (s : str)
| PyInt (z : Z)
| PyDate (d : datetime).

Definition opt_val {A} (f : A -> pyval) (o : option A) : pyval :=
  match o with Some a => f a | None => PyNone end.

(** The exceptions the two download functions raise for a cause [e]. *)
Definition failed_video (e : exn) : exn :=
  Exception (lit "Failed to download video: " ++ exn_str e).

Definition failed_audio (e : exn) : exn :=
  Exception (lit "Failed to download audio: " ++ exn_str e).

Definition no_audio_stream : exn :=
  Exception (lit "No suitable audio stream found").

Section Downloader.

Variable w : World.

(** The number in an attribute: 720 for 720p, 128 for 128kbps. *)
Definition int_key (a : attribute) (s : Stream) : Z :=
  match int_digits w (attr_val a s) with Some z => z | None => 0%Z end.

(** Every attribute value of [q] holds a number. *)
Definition numeric (a : attribute) (q : StreamQuery) : bool :=
  forallb (fun s => bool_decide (is_Some (int_digits w (attr_val a s)))) q.

(** The comparison [order_by] sorts the streams of [q] by. *)
Definition attr_leb (a : attribute) (q : StreamQuery) (s t : Stream) : bool :=
  if numeric a q then (int_key a s <=? int_key a t)%Z
  else str_leb (attr_val a s) (attr_val a t).

(** The streams whose attribute is not [None]. *)
Definition has_attribute (a : attribute) (q : StreamQuery) : StreamQuery :=
  List.filter (fun s => bool_decide (is_Some (getattr a s))) q.

(** Modelled from the spec: pytube's [StreamQuery.order_by] is not part
    of the repository.  It drops the streams that lack the attribute and
    sorts the rest in ascending order (section 4.1: highest resolution,
    highest reported bitrate): by the number in the attribute when every
    value holds one, else by the attribute as a string, as the library
    does. *)
Definition order_by (a : attribute) (q : StreamQuery) : StreamQuery :=
  sorted (attr_leb a (has_attribute a q)) (has_attribute a q).

(** Modelled from the spec: pytube's [get_highest_resolution], the
    provider's own highest-resolution stream, whatever its container:
    the last progressive stream in ascending order of resolution. *)
Definition get_highest_resolution (q : StreamQuery) : option Stream :=
  last_ (order_by attr_resolution (sq_filter [progressive] q)).

(** [_get_video_stream], lines 35-69. *)
Definition _get_video_stream (yt : YT) (resolution : str) : option Stream :=
  match yt_streams yt with
  | Raise _ => None
  | Ok all =>
      let streams :=
        desc (order_by attr_resolution
                (sq_filter [progressive; file_extension mp4;
                            kw_resolution resolution] all)) in
      if truthy streams then first streams
      else
        let video_streams :=
          desc (order_by attr_resolution
                  (sq_filter [adaptive; only_video; file_extension mp4;
                              kw_resolution resolution] all)) in
        if truthy video_streams then first video_streams else None
  end.

(** [_get_audio_stream], lines 71-90. *)
Definition _get_audio_stream (yt : YT) : option Stream :=
  match yt_streams yt with
  | Raise _ => None
  | Ok all =>
      let audio_streams :=
        desc (order_by attr_abr
                (sq_filter [only_audio; file_extension mp4] all)) in
      if truthy audio_streams then first audio_streams else None
  end.

(** [stream.download(output_path=..., filename=...)] *)
Definition download (s : Stream) (dir : option str) (filename : str) : M str :=
  external (CallDownload s dir filename) (stream_download w s dir filename).

(** The stem used when the caller gave none, lines 110-111 and 167-168. *)
Definition default_filename (yt : YT) (filename : option str) : M str :=
  match filename with
  | None => let! title := lift (yt_title yt) in ret (_sanitize_filename title)
  | Some f => ret f
  end.

(** The fallback of [download_mp4], lines 116-123. *)
Definition fallback_stream (yt : YT) (video_stream : option Stream)
  : M (option Stream) :=
  match video_stream with
  | Some s => ret (Some s)
  | None =>
      let! all := lift (yt_streams yt) in
      match first (desc (order_by attr_resolution
                           (sq_filter [progressive; file_extension mp4] all))) with
      | Some s => ret (Some s)
      | None => ret (get_highest_resolution all)
      end
  end.

(** Lines 134-138: make the path end in [.mp4]. *)
Definition ensure_mp4 (file_path : str) : M str :=
  if negb (endswith file_path dot_mp4) then
    let new_path := file_path ++ dot_mp4 in
    do! os_rename w file_path new_path in
    ret new_path
  else ret file_path.

Definition none_has_no (attr : str) : exn :=
  AttributeError (lit "'NoneType' object has no attribute '" ++ attr ++ lit "'").

(** [download_mp4], lines 92-148.  The log lines are kept only for the
    attribute they read, which may raise. *)
Definition download_mp4 (self : YouTubeDownloader) (url : str)
    (filename : option str) (resolution : str) : M str :=
  try_except
    (let! yt := lift (YouTube w url) in
     let! filename := default_filename yt filename in
     let! video_stream := fallback_stream yt (_get_video_stream yt resolution) in
     do! lift (yt_title yt) in
     match video_stream with
     | None => raise (none_has_no (lit "resolution"))
     | Some video_stream =>
         let! file_path := download video_stream (Some (output_path self)) filename in
         ensure_mp4 file_path
     end)
    (fun e => raise (failed_video e)).

(** [tempfile.NamedTemporaryFile(delete=False, suffix=...)], left by
    its [with] block: an empty file that stays on disk. *)
Definition NamedTemporaryFile (suffix : str) : M str :=
  fun st =>
    let name := temp_stem w (files st) ++ suffix in
    (Ok name, {| files := <[name := []]> (files st); journal := journal st |}).

(** [download_mp3], lines 150-203. *)
Definition download_mp3 (self : YouTubeDownloader) (url : str)
    (filename : option str) : M str :=
  try_except
    (let! yt := lift (YouTube w url) in
     let! filename := default_filename yt filename in
     match _get_audio_stream yt with
     | None => raise no_audio_stream
     | Some audio_stream =>
         do! lift (yt_title yt) in
         let! temp_path := NamedTemporaryFile dot_mp4 in
         do! download audio_stream None temp_path in
         let output := os_path_join (output_path self) (filename ++ dot_mp3) in
         let! audio_clip := external (CallAudioFileClip temp_path)
                                (AudioFileClip w temp_path) in
         do! external (CallWriteAudiofile audio_clip output)
                      (write_audiofile w audio_clip output) in
         do! external (CallClose audio_clip) (close w audio_clip) in
         do! os_unlink w temp_path in
         ret output
     end)
    (fun e => raise (failed_audio e)).

(** The conditional expression of line 238. *)
Definition description_entry (yt : YT) : M pyval :=
  let! d := lift (yt_description yt) in
  match d with
  | Some ((_ :: _) as s) =>
      if (200 <? length s)%nat then ret (PyStr (take 200 s ++ lit "..."))
      else ret (PyStr s)
  | _ => ret (opt_val PyStr d)
  end.

(** [get_video_info], lines 220-242. *)
Definition get_video_info (url : str) : M (gmap string pyval) :=
  try_except
    (let! yt := lift (YouTube w url) in
     let! title := lift (yt_title yt) in
     let! author := lift (yt_author yt) in
     let! length := lift (yt_length yt) in
     let! views := lift (yt_views yt) in
     let! publish_date := lift (yt_publish_date yt) in
     let! description := description_entry yt in
     ret (<["title" := PyStr title]>
          (<["author" := PyStr author]>
           (<["length" := PyInt length]>
            (<["views" := PyInt views]>
             (<["publish_date" := opt_val PyDate publish_date]>
              (<["description" := description]> ∅)))))))
    (fun e => ret ∅).

End Downloader.

(** ** The vocabulary of the specification *)

(** A string with no whitespace at either end. *)
Definition trimmed (s : str) : Prop :=
  (∀ c, head s = Some c -> isspace c = false)
  ∧ (∀ c, last s = Some c -> isspace c = false).

(** A progressive stream of the target container at the resolution asked. *)
Definition progressive_match (res : str) (s : Stream) : Prop :=
  is_progressive s = true ∧ subtype s = mp4 ∧ resolution s = Some res.

(** An adaptive video-only stream of the target container at the
    resolution asked. *)
Definition adaptive_match (res : str) (s : Stream) : Prop :=
  is_adaptive s = true
  ∧ includes_video_track s = true ∧ includes_audio_track s = false
  ∧ subtype s = mp4 ∧ resolution s = Some res.

(** A progressive stream of the target container that reports a resolution. *)
Definition progressive_mp4 (s : Stream) : Prop :=
  is_progressive s = true ∧ subtype s = mp4 ∧ is_Some (resolution s).

(** An audio-only stream of the target container. *)
Definition audio_only_mp4 (s : Stream) : Prop :=
  includes_audio_track s = true ∧ includes_video_track s = false
  ∧ subtype s = mp4.

(** The keyword sets of the two queries of [_get_video_stream]. *)
Definition progressive_kws (res : str) : list kwarg :=
  [progressive; file_extension mp4; kw_resolution res].

Definition adaptive_kws (res : str) : list kwarg :=
  [adaptive; only_video; file_extension mp4; kw_resolution res].

(** The number a stream reports for an attribute, when it reports one. *)
Definition reported (w : World) (a : attribute) (s : Stream) : option Z :=
  match getattr a s with Some v => int_digits w v | None => None end.

(** [m] is a highest stream of [q] for attribute [a]: it is one of the
    streams of [q] that have the attribute, none of them is above it in
    the order [order_by] sorts by, and when each of them reports a number,
    none reports a greater number. *)
Definition highest (w : World) (a : attribute) (q : StreamQuery) (m : Stream) : Prop :=
  m ∈ q ∧ is_Some (getattr a m)
  ∧ (∀ t, t ∈ q -> is_Some (getattr a t) ->
          attr_leb w a (has_attribute a q) t m = true)
  ∧ ((∀ t, t ∈ q -> is_Some (getattr a t) -> is_Some (reported w a t)) ->
     ∀ t, t ∈ q -> is_Some (getattr a t) ->
          ∃ zt zm, reported w a t = Some zt ∧ reported w a m = Some zm
                   ∧ (zt <= zm)%Z).

(** The stem the download functions use. *)
Definition stem_of (filename : option str) (title : str) : str :=
  match filename with
  | Some f => f
  | None => _sanitize_filename title
  end.

(** The description as [get_video_info] reports it: cut to 200 characters
    and an ellipsis when longer. *)
Definition shorten (d : option str) : pyval :=
  match d with
  | Some s =>
      if (200 <? length s)%nat then PyStr (take 200 s ++ lit "...") else PyStr s
  | None => PyNone
  end.

Definition info_dict (title author : str) (length views : Z)
    (publish_date : option datetime) (description : pyval) : gmap string pyval :=
  <["title" := PyStr title]>
    (<["author" := PyStr author]>
       (<["length" := PyInt length]>
          (<["views" := PyInt views]>
             (<["publish_date" := opt_val PyDate publish_date]>
                (<["description" := description]> ∅))))).

Definition raises {A} (r : result A) : Prop := ∃ e, r = Raise e.

(** The metadata fetch fails: the constructor raises, or one of the
    attributes read does. *)
Definition fetch_fails (w : World) (url : str) : Prop :=
  match YouTube w url with
  | Raise _ => True
  | Ok yt =>
      raises (yt_title yt) ∨ raises (yt_author yt) ∨ raises (yt_length yt)
      ∨ raises (yt_views yt) ∨ raises (yt_publish_date yt)
      ∨ raises (yt_description yt)
  end.

(** ** A concrete environment, for running the code on examples *)

Module Demo.

(** [int] of the ASCII digits of a string; [int] of no digits raises. *)
Definition ascii_digits (v : str) : list N :=
  List.filter (fun c => (48 <=? c) && (c <=? 57)) v.

Definition ascii_int_digits (v : str) : option Z :=
  match ascii_digits v with
  | [] => None
  | ds => Some (fold_left (fun acc d => (10 * acc + Z.of_N (d - 48))%Z) ds 0%Z)
  end.

Definition audio (tag : N) (rate : string) : Stream :=
  {| itag := tag; resolution := None; subtype := mp4;
     is_progressive := false; is_adaptive := true;
     includes_audio_track := true; includes_video_track := false;
     abr := Some (lit rate) |}.

Definition video (tag : N) (res ext : string) (prog : bool) : Stream :=
  {| itag := tag; resolution := Some (lit res); subtype := lit ext;
     is_progressive := prog; is_adaptive := negb prog;
     includes_audio_track := prog; includes_video_track := true;
     abr := if prog then Some (lit "96kbps") else None |}.

Definition a96 := audio 139 "96kbps".
Definition a128 := audio 140 "128kbps".
Definition a160 := audio 141 "160kbps".
Definition g360 := video 43 "360p" "webm" true.
Definition p360 := video 18 "360p" "mp4" true.
Definition p720 := video 22 "720p" "mp4" true.
Definition v720 := video 136 "720p" "mp4" false.
Definition v1080 := video 137 "1080p" "mp4" false.
Definition w1080 := video 248 "1080p" "webm" false.

Definition catalogue : StreamQuery := [p360; v720; p720; v1080; w1080; a128].

Definition video_of (q : StreamQuery) : YT :=
  {| yt_title := Ok (lit "What is 2*2? ");
     yt_author := Ok (lit "someone");
     yt_length := Ok 212%Z;
     yt_views := Ok 1000%Z;
     yt_publish_date := Ok (Some 1700000000%Z);
     yt_description := Ok (Some (lit "short"));
     yt_streams := Ok q |}.

(** [repr] of a string of printable characters without quote or
    backslash: the string in single quotes. *)
Definition quoted (v : str) : str := lit "'" ++ v ++ lit "'".

Definition payload : list N := [0; 0; 0; 24].

(** The transfer writes the file under the name it was given. *)
Definition transfer (s : Stream) (dir : option str) (filename : str) (fs : FS)
  : result str * FS :=
  let path := match dir with
              | Some d => os_path_join d filename
              | None => filename
              end in
  (Ok path, <[path := payload]> fs).

Definition world_of (yt : result YT) (encode_ok : bool) : World :=
  {| int_digits := ascii_int_digits;
     str_repr := quoted;
     YouTube := fun _ => yt;
     stream_download := transfer;
     temp_stem := fun _ => lit "/tmp/tmpk3x9";
     AudioFileClip := fun path fs => (Ok {| clip_filename := path |}, fs);
     write_audiofile := fun c out fs =>
       if encode_ok then (Ok tt, <[out := [73; 68; 51]]> fs)
       else (Raise (Exception (lit "encoder failed")), fs);
     close := fun _ fs => (Ok tt, fs) |}.

(** A video with the streams [q]; the encoder works or raises. *)
Definition world (q : StreamQuery) (encode_ok : bool) : World :=
  world_of (Ok (video_of q)) encode_ok.

(** No video can be fetched. *)
Definition offline : World :=
  world_of (Raise (PytubeError (lit "regex_search: could not find match"))) true.

(** A video whose description has 201 characters. *)
Definition wordy : World :=
  world_of (Ok {| yt_title := Ok (lit "t");
                  yt_author := Ok (lit "a");
                  yt_length := Ok 1%Z;
                  yt_views := Ok 2%Z;
                  yt_publish_date := Ok None;
                  yt_description := Ok (Some (replicate 201 120));
                  yt_streams := Ok [] |}) true.

Definition downloads : YouTubeDownloader := {| output_path := lit "./downloads" |}.

Definition start : State := {| files := ∅; journal := [] |}.

Definition url : str := lit "https://youtu.be/abc".

End Demo.

(** ** The constructor and the command line (downloader.py, [__init__],
    [_ensure_output_directory], [main]) *)

(** The arguments as [parser.parse_args()] hands them to [main]; argparse
    lets only mp4 and mp3 through as [type]. *)
Record Namespace := {
  ns_url : str;
  ns_type : str;
  ns_output : option str;
  ns_resolution : str;
  ns_output_dir : str
}.

(** What a run of [main] shows: the lines printed and the exit status. *)
Record Outcome := {
  stdout : list str;
  status : Z
}.

Section Cli.

Variable w : World.

(** [os.makedirs(path, exist_ok=True)].  Directories are not part of the
    file model, so the call is left abstract: it may change the files and
    may raise. *)
Variable makedirs : str -> FS -> result unit * FS.

(** [_ensure_output_directory], lines 31-33. *)
Definition _ensure_output_directory (self : YouTubeDownloader) : M unit :=
  fun st =>
    let (r, fs') := makedirs (output_path self) (files st) in
    (r, {| files := fs'; journal := journal st |}).

(** [__init__], lines 21-29. *)
Definition __init__ (output_path : str) : M YouTubeDownloader :=
  let self := {| output_path := output_path |} in
  do! _ensure_output_directory self in
  ret self.

(** The [try] block of [main], lines 262-273, up to the [print]. *)
Definition main_try (args : Namespace) : M str :=
  let! downloader := __init__ (ns_output_dir args) in
  if bool_decide (ns_type args = mp4) then
    download_mp4 w downloader (ns_url args) (ns_output args) (ns_resolution args)
  else
    download_mp3 w downloader (ns_url args) (ns_output args).

(** [main] once the arguments are parsed, lines 261-277: the path is
    printed and the process ends with status 0, or the error is printed
    and [sys.exit(1)] ends it. *)
Definition main (args : Namespace) : State -> Outcome * State :=
  fun st =>
    match main_try args st with
    | (Ok file_path, st') =>
        ({| stdout := [lit "Download completed: " ++ file_path]; status := 0 |}, st')
    | (Raise e, st') =>
        ({| stdout := [lit "Error: " ++ exn_str e]; status := 1 |}, st')
    end.

End Cli.

(** Environments for running [main]. *)
Module DemoCli.

Definition makedirs_ok (path : str) (fs : FS) : result unit * FS := (Ok tt, fs).

Definition makedirs_denied (path : str) (fs : FS) : result unit * FS :=
  (Raise (Exception (lit "[Errno 13] Permission denied: " ++ path)), fs).

Definition args (type : string) (output : option str) : Namespace :=
  {| ns_url := Demo.url; ns_type := lit type; ns_output := output;
     ns_resolution := lit "720p"; ns_output_dir := lit "/tmp/out" |}.

(** A video whose stream list cannot be fetched. *)
Definition no_streams : World :=
  Demo.world_of
    (Ok {| yt_title := Ok (lit "t");
           yt_author := Ok (lit "a");
           yt_length := Ok 1%Z;
           yt_views := Ok 2%Z;
           yt_publish_date := Ok None;
           yt_description := Ok None;
           yt_streams := Raise (PytubeError (lit "HTTP Error 410: Gone")) |}) true.

(** The transfer raises, leaving the files as they are. *)
Definition broken_transfer (q : StreamQuery) : World :=
  {| int_digits := Demo.ascii_int_digits;
     str_repr := Demo.quoted;
     YouTube := fun _ => Ok (Demo.video_of q);
     stream_download := fun _ _ _ fs =>
       (Raise (PytubeError (lit "connection reset")), fs);
     temp_stem := fun _ => lit "/tmp/tmpk3x9";
     AudioFileClip := fun path fs => (Ok {| clip_filename := path |}, fs);
     write_audiofile := fun _ out fs => (Ok tt, <[out := [73; 68; 51]]> fs);
     close := fun _ fs => (Ok tt, fs) |}.

(** The transfer names a path and writes nothing there. *)
Definition phantom_transfer (q : StreamQuery) : World :=
  {| int_digits := Demo.ascii_int_digits;
     str_repr := Demo.quoted;
     YouTube := fun _ => Ok (Demo.video_of q);
     stream_download := fun _ dir filename fs =>
       (Ok (match dir with
            | Some d => os_path_join d filename
            | None => filename
            end), fs);
     temp_stem := fun _ => lit "/tmp/tmpk3x9";
     AudioFileClip := fun path fs => (Ok {| clip_filename := path |}, fs);
     write_audiofile := fun _ out fs => (Ok tt, <[out := [73; 68; 51]]> fs);
     close := fun _ fs => (Ok tt, fs) |}.

(** A second 128 kbps audio stream and a second progressive 720p one. *)
Definition a128b : Stream := Demo.audio 251 "128kbps".
Definition p720b : Stream := Demo.video 95 "720p" "mp4" true.

End DemoCli.

(** * Properties *)

(** ** The sanitizer *)

Section Sanitizer.

Implicit Types (s : str) (c : char).

Lemma underscore_valid : underscore ∉ invalid_chars.
Proof.
  unfold underscore, invalid_chars. rewrite !not_elem_of_cons.
  repeat split; [done .. | apply not_elem_of_nil].
Qed.

(** One pass of the loop per character is one substitution per
    character: no replacement introduces a character a later pass
    would replace. *)
Lemma replace_loop_char c :
  fold_left (fun x k => if x =? k then underscore else x) invalid_chars c
  = subst_char c.
Proof.
  unfold subst_char. case_bool_decide as Hin.
  - unfold invalid_chars in Hin. rewrite !elem_of_cons, elem_of_nil in Hin.
    repeat (destruct Hin as [-> | Hin]; [reflexivity |]). destruct Hin.
  - unfold invalid_chars in *. rewrite !not_elem_of_cons in Hin.
    cbn [fold_left].
    repeat match goal with
           | H : c ≠ ?k ∧ _ |- _ => destruct H as [?%N.eqb_neq ?]
           end.
    repeat match goal with
           | H : (c =? ?k) = false |- _ => rewrite H; clear H
           end.
    reflexivity.
Qed.

Lemma replace_loop s (ks : list char) :
  fold_left (fun f k => replace k underscore f) ks s
  = List.map (fun c => fold_left (fun x k => if x =? k then underscore else x) ks c) s.
Proof.
  revert s. induction ks as [| k ks IH]; intros s; cbn [fold_left].
  - by rewrite map_id.
  - rewrite IH. unfold replace. by rewrite map_map.
Qed.

Lemma sanitize_unfold s :
  _sanitize_filename s = strip (List.map subst_char s).
Proof.
  unfold _sanitize_filename. rewrite replace_loop. f_equal.
  apply map_ext. intros c. apply replace_loop_char.
Qed.

Lemma subst_char_valid c : subst_char c ∉ invalid_chars.
Proof.
  unfold subst_char. case_bool_decide; [apply underscore_valid | done].
Qed.

Lemma subst_char_id c : c ∉ invalid_chars -> subst_char c = c.
Proof. intros H. unfold subst_char. by rewrite bool_decide_eq_false_2. Qed.

(** *** Trimming *)

Lemma lstrip_split s :
  ∃ pre, s = pre ++ lstrip s ∧ Forall (fun c => isspace c = true) pre.
Proof.
  induction s as [| c r [pre [E F]]]; cbn [lstrip].
  - by exists [].
  - destruct (isspace c) eqn:Hc.
    + exists (c :: pre). split; [by rewrite E at 1 | by constructor].
    + by exists [].
Qed.

Lemma lstrip_head s c : head (lstrip s) = Some c -> isspace c = false.
Proof.
  induction s as [| a r IH]; cbn [lstrip]; [done |].
  destruct (isspace a) eqn:Ha; [done |]. cbn. by intros [= <-].
Qed.

Lemma lstrip_id s :
  (∀ c, head s = Some c -> isspace c = false) -> lstrip s = s.
Proof.
  destruct s as [| a r]; [done |]. intros H. cbn [lstrip].
  by rewrite (H a eq_refl).
Qed.

Lemma lstrip_snoc s c : isspace c = false -> lstrip (s ++ [c]) = lstrip s ++ [c].
Proof.
  intros Hc. induction s as [| a r IH]; cbn [lstrip app].
  - by rewrite Hc.
  - by destruct (isspace a).
Qed.

Lemma rstrip_split s :
  ∃ post, s = rstrip s ++ post ∧ Forall (fun c => isspace c = true) post.
Proof.
  destruct (lstrip_split (reverse s)) as [pre [E F]].
  exists (reverse pre). split.
  - unfold rstrip. rewrite <- reverse_app, <- E. by rewrite reverse_involutive.
  - by apply Forall_reverse.
Qed.

Lemma rstrip_last s c : last (rstrip s) = Some c -> isspace c = false.
Proof. unfold rstrip. rewrite last_reverse. apply lstrip_head. Qed.

Lemma rstrip_id s :
  (∀ c, last s = Some c -> isspace c = false) -> rstrip s = s.
Proof.
  intros H. unfold rstrip. rewrite lstrip_id; [apply reverse_involutive |].
  intros c. rewrite head_reverse. apply H.
Qed.

Lemma rstrip_head s c :
  (∀ a, head s = Some a -> isspace a = false) ->
  head (rstrip s) = Some c -> head s = Some c.
Proof.
  destruct s as [| a r]; [done |]. intros H. unfold rstrip.
  rewrite reverse_cons, lstrip_snoc by by apply H.
  rewrite reverse_snoc. done.
Qed.

Lemma strip_trimmed s : trimmed (strip s).
Proof.
  unfold strip. split; intros c Hc.
  - apply rstrip_head in Hc; [by apply lstrip_head in Hc |].
    intros a. apply lstrip_head.
  - by apply rstrip_last in Hc.
Qed.

Lemma strip_id s : trimmed s -> strip s = s.
Proof.
  intros [Hh Hl]. unfold strip. rewrite (lstrip_id s Hh). by apply rstrip_id.
Qed.

Lemma strip_split s :
  ∃ pre post, s = pre ++ strip s ++ post
              ∧ Forall (fun c => isspace c = true) pre
              ∧ Forall (fun c => isspace c = true) post.
Proof.
  destruct (lstrip_split s) as [pre [E F]].
  destruct (rstrip_split (lstrip s)) as [post [E' F']].
  exists pre, post. unfold strip. by rewrite <- E', <- E.
Qed.

Lemma strip_elem_of s c : c ∈ strip s -> c ∈ s.
Proof.
  destruct (strip_split s) as [pre [post [E _]]]. intros H.
  rewrite E. rewrite !elem_of_app. auto.
Qed.

Lemma sanitize_valid s c : c ∈ _sanitize_filename s -> c ∉ invalid_chars.
Proof.
  rewrite sanitize_unfold. intros H%strip_elem_of.
  apply list_elem_of_In, in_map_iff in H as [x [<- _]].
  apply subst_char_valid.
Qed.

Lemma map_subst_id s :
  (∀ c, c ∈ s -> c ∉ invalid_chars) -> List.map subst_char s = s.
Proof.
  induction s as [| a r IH]; intros H; cbn [List.map]; [done |].
  rewrite subst_char_id by (apply H; left).
  rewrite IH; [done |]. intros c Hc. apply H. by right.
Qed.

(** C2: the sanitizer replaces every occurrence of the nine characters
    by an underscore and trims the whitespace at both ends: its output
    is the substituted input without a whitespace prefix and a
    whitespace suffix, begins and ends with no whitespace, and holds
    none of the nine characters.  It is a total function. *)
Theorem sanitize_spec (name : str) :
  _sanitize_filename name = strip (List.map subst_char name)
  ∧ (∃ pre post,
        List.map subst_char name = pre ++ _sanitize_filename name ++ post
        ∧ Forall (fun c => isspace c = true) pre
        ∧ Forall (fun c => isspace c = true) post)
  ∧ trimmed (_sanitize_filename name)
  ∧ (∀ c, c ∈ invalid_chars -> c ∉ _sanitize_filename name).
Proof.
  split; [apply sanitize_unfold |]. rewrite sanitize_unfold.
  split; [apply strip_split |]. split; [apply strip_trimmed |].
  intros c Hc Hin. rewrite <- sanitize_unfold in Hin.
  by apply sanitize_valid in Hin.
Qed.

(** C3: sanitizing twice is sanitizing once. *)
Theorem sanitize_idempotent (x : str) :
  _sanitize_filename (_sanitize_filename x) = _sanitize_filename x.
Proof.
  rewrite (sanitize_unfold (_sanitize_filename x)).
  rewrite map_subst_id by apply sanitize_valid.
  apply strip_id. rewrite sanitize_unfold. apply strip_trimmed.
Qed.

End Sanitizer.

(** ** Sorting, as [order_by] uses it *)

Section SortFacts.

Context {A : Type} (leb : A -> A -> bool).

Lemma insert_sorted_elem_of x y (l : list A) :
  y ∈ insert_sorted leb x l <-> y = x ∨ y ∈ l.
Proof.
  induction l as [| z r IH]; cbn [insert_sorted].
  - rewrite list_elem_of_singleton, elem_of_nil. tauto.
  - destruct (leb x z); rewrite !elem_of_cons; [tauto |].
    rewrite IH. tauto.
Qed.

Lemma sorted_elem_of y (l : list A) : y ∈ sorted leb l <-> y ∈ l.
Proof.
  induction l as [| x r IH]; cbn [sorted fold_right]; [done |].
  fold (sorted leb r). rewrite insert_sorted_elem_of, elem_of_cons, IH. tauto.
Qed.

(** Streams that compare equal stay in the order they came in. *)
Lemma sorted_all_equal (l : list A) :
  (∀ a b, a ∈ l -> b ∈ l -> leb a b = true) -> sorted leb l = l.
Proof.
  induction l as [| x r IH]; intros H; cbn [sorted fold_right]; [done |].
  fold (sorted leb r). rewrite IH.
  - destruct r as [| y r']; cbn [insert_sorted]; [done |].
    rewrite H; [done | left | right; left].
  - intros a b Ha Hb. apply H; by right.
Qed.

Hypothesis leb_total : ∀ a b, leb a b = true ∨ leb b a = true.
Hypothesis leb_trans : ∀ a b c, leb a b = true -> leb b c = true -> leb a c = true.

Lemma insert_sorted_Sorted x (l : list A) :
  StronglySorted (fun a b => leb a b = true) l ->
  StronglySorted (fun a b => leb a b = true) (insert_sorted leb x l).
Proof.
  induction 1 as [| z r Hr IH Hz]; cbn [insert_sorted].
  - repeat constructor.
  - destruct (leb x z) eqn:Hxz.
    + constructor; [by constructor |]. constructor; [done |].
      eapply Forall_impl; [exact Hz |]. intros b Hb. by eapply leb_trans.
    + constructor; [exact IH |].
      apply Forall_forall. intros b Hb%insert_sorted_elem_of.
      destruct Hb as [-> | Hb].
      * destruct (leb_total x z) as [E | E]; [congruence | done].
      * rewrite Forall_forall in Hz. by apply Hz.
Qed.

Lemma sorted_Sorted (l : list A) :
  StronglySorted (fun a b => leb a b = true) (sorted leb l).
Proof.
  induction l as [| x r IH]; cbn [sorted fold_right]; [constructor |].
  by apply insert_sorted_Sorted.
Qed.

Lemma Sorted_last_max (l : list A) m :
  StronglySorted (fun a b => leb a b = true) l ->
  last l = Some m -> ∀ t, t ∈ l -> leb t m = true.
Proof.
  induction 1 as [| z r Hr IH Hz]; intros Hm t Ht; [by inversion Ht |].
  destruct r as [| y r'].
  - cbn in Hm. injection Hm as <-. apply list_elem_of_singleton in Ht as ->.
    by destruct (leb_total z z).
  - rewrite last_cons_cons in Hm. apply elem_of_cons in Ht as [-> | Ht].
    + rewrite Forall_forall in Hz. apply Hz.
      by apply last_Some_elem_of.
    + by apply IH.
Qed.

(** The last stream of the ascending order is a greatest one. *)
Lemma sorted_last_max (l : list A) m :
  last (sorted leb l) = Some m ->
  m ∈ l ∧ ∀ t, t ∈ l -> leb t m = true.
Proof.
  intros Hm. split.
  - apply sorted_elem_of. by apply last_Some_elem_of.
  - intros t Ht. eapply Sorted_last_max; [apply sorted_Sorted | done |].
    by apply sorted_elem_of.
Qed.

Lemma sorted_nil_iff (l : list A) : sorted leb l = [] <-> l = [].
Proof.
  split; [| by intros ->].
  destruct l as [| x r]; [done |]. intros H.
  assert (x ∈ sorted leb (x :: r)) as Hx by (apply sorted_elem_of; left).
  rewrite H in Hx. by inversion Hx.
Qed.

End SortFacts.

(** ** The order on strings *)

Lemma str_leb_refl (s : str) : str_leb s s = true.
Proof.
  induction s as [| a r IH]; [done |]. cbn [str_leb].
  by rewrite N.ltb_irrefl, N.eqb_refl.
Qed.

Lemma str_leb_total (s t : str) : str_leb s t = true ∨ str_leb t s = true.
Proof.
  revert t. induction s as [| a r IH]; intros [| b t']; cbn [str_leb]; auto.
  destruct (N.ltb_spec a b), (N.ltb_spec b a); auto; try lia.
  assert (a = b) as -> by lia. rewrite N.eqb_refl. apply IH.
Qed.

Lemma str_leb_trans (s t u : str) :
  str_leb s t = true -> str_leb t u = true -> str_leb s u = true.
Proof.
  revert t u. induction s as [| a r IH]; intros [| b t'] [| c u'];
    cbn [str_leb]; try done.
  destruct (N.ltb_spec a b), (N.ltb_spec b c), (N.ltb_spec a c);
    try done; try lia;
    destruct (N.eqb_spec a b), (N.eqb_spec b c), (N.eqb_spec a c);
    try done; try lia.
  apply IH.
Qed.

(** ** Stream selection *)

Section Selection.

Variable w : World.

Implicit Types (q all : StreamQuery) (s t m : Stream) (a : attribute).

Lemma sq_filter_elem_of kws q s :
  s ∈ sq_filter kws q <-> s ∈ q ∧ ∀ k, k ∈ kws -> kw_matches k s = true.
Proof.
  unfold sq_filter. rewrite list_elem_of_In, filter_In, forallb_forall.
  rewrite <- list_elem_of_In. setoid_rewrite <- list_elem_of_In. tauto.
Qed.

Lemma has_attribute_elem_of a q s :
  s ∈ has_attribute a q <-> s ∈ q ∧ is_Some (getattr a s).
Proof.
  unfold has_attribute. rewrite list_elem_of_In, filter_In, bool_decide_eq_true.
  by rewrite <- list_elem_of_In.
Qed.

Lemma has_attribute_all a q :
  (∀ s, s ∈ q -> is_Some (getattr a s)) -> has_attribute a q = q.
Proof.
  intros H. unfold has_attribute. induction q as [| x r IH]; [done |].
  cbn [List.filter]. rewrite bool_decide_eq_true_2 by (apply H; left).
  rewrite IH; [done |]. intros s Hs. apply H. by right.
Qed.

Lemma attr_leb_total a q s t :
  attr_leb w a q s t = true ∨ attr_leb w a q t s = true.
Proof.
  unfold attr_leb. destruct (numeric w a q); [| apply str_leb_total].
  rewrite !Z.leb_le. lia.
Qed.

Lemma attr_leb_trans a q s t u :
  attr_leb w a q s t = true -> attr_leb w a q t u = true ->
  attr_leb w a q s u = true.
Proof.
  unfold attr_leb. destruct (numeric w a q); [| apply str_leb_trans].
  rewrite !Z.leb_le. lia.
Qed.

Lemma attr_leb_same a q s t : attr_val a s = attr_val a t -> attr_leb w a q s t = true.
Proof.
  intros E. unfold attr_leb, int_key. rewrite E.
  destruct (numeric w a q); [apply Z.leb_refl | apply str_leb_refl].
Qed.

(** [if q.desc(): return q.desc().first()], else the alternative. *)
Lemma first_desc q (alt : option Stream) :
  (if truthy (desc q) then first (desc q) else alt)
  = match last q with Some s => Some s | None => alt end.
Proof.
  unfold first, desc. rewrite head_reverse.
  destruct (reverse q) as [| x r] eqn:E; cbn [truthy].
  - apply (f_equal reverse) in E. rewrite reverse_involutive in E. by subst q.
  - destruct (last q) eqn:El; [done |].
    apply last_None in El. subst q. done.
Qed.

(** The greatest stream of a query under the order of [order_by]. *)
Lemma order_by_last a q m :
  last (order_by w a q) = Some m ->
  m ∈ q ∧ is_Some (getattr a m)
  ∧ ∀ t, t ∈ q -> is_Some (getattr a t) ->
         attr_leb w a (has_attribute a q) t m = true.
Proof.
  unfold order_by. intros Hm.
  apply sorted_last_max in Hm as [Hin Hmax];
    [| apply attr_leb_total | apply attr_leb_trans].
  apply has_attribute_elem_of in Hin as [Hin Hattr].
  repeat split; [done .. |]. intros t Ht Hat. apply Hmax.
  by apply has_attribute_elem_of.
Qed.

Lemma order_by_last_None a q :
  last (order_by w a q) = None <-> ∀ s, s ∈ q -> getattr a s = None.
Proof.
  unfold order_by. rewrite last_None, sorted_nil_iff. split.
  - intros E s Hs. destruct (getattr a s) eqn:Ea; [| done].
    assert (s ∈ has_attribute a q) as Hin
      by (apply has_attribute_elem_of; rewrite Ea; eauto).
    rewrite E in Hin. by inversion Hin.
  - intros H. destruct (has_attribute a q) as [| x r] eqn:E; [done |].
    assert (x ∈ has_attribute a q) as Hx by (rewrite E; left).
    apply has_attribute_elem_of in Hx as [Hx [v Hv]].
    rewrite (H x Hx) in Hv. done.
Qed.

(** Streams at one resolution are left in the provider's order. *)
Lemma order_by_same_resolution kws res all :
  kw_resolution res ∈ kws ->
  order_by w attr_resolution (sq_filter kws all) = sq_filter kws all.
Proof.
  intros Hk.
  assert (∀ s, s ∈ sq_filter kws all -> resolution s = Some res) as Hres.
  { intros s [_ Hs]%sq_filter_elem_of. specialize (Hs _ Hk). cbn in Hs.
    unfold opt_str_eqb in Hs. destruct (resolution s); [| done].
    by apply bool_decide_eq_true in Hs as ->. }
  unfold order_by. rewrite has_attribute_all.
  - apply sorted_all_equal. intros s t Hs Ht. apply attr_leb_same.
    unfold attr_val. cbn. by rewrite (Hres s Hs), (Hres t Ht).
  - intros s Hs. cbn. rewrite (Hres s Hs). eauto.
Qed.

Lemma progressive_kws_spec res s :
  (∀ k, k ∈ progressive_kws res -> kw_matches k s = true) <-> progressive_match res s.
Proof.
  unfold progressive_kws, progressive_match. split.
  - intros H.
    pose proof (H progressive ltac:(set_solver)) as H1.
    pose proof (H (file_extension mp4) ltac:(set_solver)) as H2.
    pose proof (H (kw_resolution res) ltac:(set_solver)) as H3.
    cbn in H1, H2, H3. apply bool_decide_eq_true in H2.
    unfold opt_str_eqb in H3. destruct (resolution s); [| done].
    apply bool_decide_eq_true in H3. by subst.
  - intros (H1 & H2 & H3) k Hk.
    rewrite !elem_of_cons, elem_of_nil in Hk.
    destruct Hk as [-> | [-> | [-> | []]]]; cbn; [done | |].
    + by apply bool_decide_eq_true.
    + rewrite H3. cbn. by apply bool_decide_eq_true.
Qed.

Lemma adaptive_kws_spec res s :
  (∀ k, k ∈ adaptive_kws res -> kw_matches k s = true) <-> adaptive_match res s.
Proof.
  unfold adaptive_kws, adaptive_match. split.
  - intros H.
    pose proof (H adaptive ltac:(set_solver)) as H1.
    pose proof (H only_video ltac:(set_solver)) as H2.
    pose proof (H (file_extension mp4) ltac:(set_solver)) as H3.
    pose proof (H (kw_resolution res) ltac:(set_solver)) as H4.
    cbn in H1, H2, H3, H4. apply bool_decide_eq_true in H3.
    apply andb_true_iff in H2 as [H2 H2'%negb_true_iff].
    unfold opt_str_eqb in H4. destruct (resolution s); [| done].
    apply bool_decide_eq_true in H4. by subst.
  - intros (H1 & H2 & H2' & H3 & H4) k Hk.
    rewrite !elem_of_cons, elem_of_nil in Hk.
    destruct Hk as [-> | [-> | [-> | [-> | []]]]]; cbn; [done | | |].
    + by rewrite H2, H2'.
    + by apply bool_decide_eq_true.
    + rewrite H4. cbn. by apply bool_decide_eq_true.
Qed.

(** What [_get_video_stream] returns on a stream list: the last
    progressive match, else the last adaptive match. *)
Lemma get_video_stream_unfold yt all res :
  yt_streams yt = Ok all ->
  _get_video_stream w yt res
  = match last (sq_filter (progressive_kws res) all) with
    | Some s => Some s
    | None => last (sq_filter (adaptive_kws res) all)
    end.
Proof.
  intros E. unfold _get_video_stream. rewrite E.
  rewrite first_desc. fold (progressive_kws res). fold (adaptive_kws res).
  rewrite (order_by_same_resolution _ res) by set_solver.
  destruct (last (sq_filter (progressive_kws res) all)); [done |].
  rewrite first_desc.
  rewrite (order_by_same_resolution _ res) by set_solver.
  by destruct (last (sq_filter (adaptive_kws res) all)).
Qed.

Lemma last_sq_filter_Some kws q s :
  s ∈ q -> (∀ k, k ∈ kws -> kw_matches k s = true) ->
  ∃ m, last (sq_filter kws q) = Some m.
Proof.
  intros Hs Hk. apply last_is_Some. intros E.
  assert (s ∈ sq_filter kws q) as Hin by by apply sq_filter_elem_of.
  rewrite E in Hin. by inversion Hin.
Qed.

Lemma last_sq_filter_None kws q :
  (∀ s, s ∈ q -> ¬ ∀ k, k ∈ kws -> kw_matches k s = true) ->
  last (sq_filter kws q) = None.
Proof.
  intros H. apply last_None.
  destruct (sq_filter kws q) as [| x r] eqn:E; [done |].
  assert (x ∈ sq_filter kws q) as [Hx Hk]%sq_filter_elem_of by (rewrite E; left).
  by destruct (H x Hx).
Qed.

(** C4: when a progressive stream of the target container at the
    resolution asked exists, such a stream is returned, whatever
    adaptive streams there are; when none exists but an adaptive
    video-only one does, such an adaptive stream is returned; when
    neither exists the answer is [None], and the fallback of
    [download_mp4] takes over. *)
Theorem video_stream_priority (yt : YT) (all : StreamQuery) (res : str) :
  yt_streams yt = Ok all ->
  ((∃ s, s ∈ all ∧ progressive_match res s) ->
     ∃ m, _get_video_stream w yt res = Some m
          ∧ m ∈ all ∧ progressive_match res m)
  ∧ ((∀ s, s ∈ all -> ¬ progressive_match res s) ->
     (∃ s, s ∈ all ∧ adaptive_match res s) ->
     ∃ m, _get_video_stream w yt res = Some m
          ∧ m ∈ all ∧ adaptive_match res m)
  ∧ ((∀ s, s ∈ all -> ¬ progressive_match res s) ->
     (∀ s, s ∈ all -> ¬ adaptive_match res s) ->
     _get_video_stream w yt res = None
     ∧ fallback_stream w yt (_get_video_stream w yt res)
       = fallback_stream w yt None).
Proof.
  intros E. rewrite (get_video_stream_unfold yt all res E).
  split; [| split].
  - intros (s & Hs & Hm).
    destruct (last_sq_filter_Some (progressive_kws res) all s Hs) as [m Hl];
      [by apply progressive_kws_spec |].
    rewrite Hl. exists m. split; [done |].
    apply last_Some_elem_of, sq_filter_elem_of in Hl as [Hin Hk].
    split; [done | by apply progressive_kws_spec].
  - intros Hno (s & Hs & Hm).
    rewrite last_sq_filter_None
      by (intros x Hx Hk; apply (Hno x Hx); by apply progressive_kws_spec).
    destruct (last_sq_filter_Some (adaptive_kws res) all s Hs) as [m Hl];
      [by apply adaptive_kws_spec |].
    exists m. split; [done |].
    apply last_Some_elem_of, sq_filter_elem_of in Hl as [Hin Hk].
    split; [done | by apply adaptive_kws_spec].
  - intros Hno Hno'.
    rewrite last_sq_filter_None
      by (intros x Hx Hk; apply (Hno x Hx); by apply progressive_kws_spec).
    rewrite last_sq_filter_None
      by (intros x Hx Hk; apply (Hno' x Hx); by apply adaptive_kws_spec).
    done.
Qed.


Lemma numeric_spec a q :
  numeric w a (has_attribute a q) = true
  <-> ∀ t, t ∈ q -> is_Some (getattr a t) -> is_Some (reported w a t).
Proof.
  unfold numeric. rewrite forallb_forall. split.
  - intros H t Ht [v Hv].
    assert (In t (has_attribute a q)) as Hin
      by (apply list_elem_of_In, has_attribute_elem_of; eauto).
    apply H, bool_decide_eq_true in Hin.
    unfold reported. unfold attr_val in Hin. by rewrite Hv in *.
  - intros H t [Ht [v Hv]]%list_elem_of_In%has_attribute_elem_of.
    apply bool_decide_eq_true. specialize (H t Ht (ex_intro _ v Hv)).
    unfold reported in H. unfold attr_val. by rewrite Hv in *.
Qed.

Lemma int_key_reported a s z : reported w a s = Some z -> int_key w a s = z.
Proof.
  unfold reported, int_key, attr_val.
  destruct (getattr a s); [| done]. by intros ->.
Qed.

(** The last stream of [order_by] is a highest one. *)
Lemma order_by_last_highest a q m :
  last (order_by w a q) = Some m -> highest w a q m.
Proof.
  intros Hm. destruct (order_by_last a q m Hm) as (Hin & Hattr & Hmax).
  unfold highest. repeat split; [done .. |].
  intros Hnum t Ht Hat.
  destruct (Hnum t Ht Hat) as [zt Hzt]. destruct (Hnum m Hin Hattr) as [zm Hzm].
  exists zt, zm. repeat split; [done .. |].
  specialize (Hmax t Ht Hat). unfold attr_leb in Hmax.
  rewrite (proj2 (numeric_spec a q) Hnum) in Hmax.
  rewrite (int_key_reported a t zt Hzt), (int_key_reported a m zm Hzm) in Hmax.
  by apply Z.leb_le.
Qed.

Lemma order_by_last_Some a q s :
  s ∈ q -> is_Some (getattr a s) -> ∃ m, last (order_by w a q) = Some m.
Proof.
  intros Hs [v Hv]. destruct (last (order_by w a q)) as [m |] eqn:E; [eauto |].
  rewrite order_by_last_None in E. rewrite (E s Hs) in Hv. done.
Qed.

Lemma audio_kws_spec s :
  (∀ k, k ∈ [only_audio; file_extension mp4] -> kw_matches k s = true)
  <-> audio_only_mp4 s.
Proof.
  unfold audio_only_mp4. split.
  - intros H.
    pose proof (H only_audio ltac:(set_solver)) as H1.
    pose proof (H (file_extension mp4) ltac:(set_solver)) as H2.
    cbn in H1, H2. apply bool_decide_eq_true in H2.
    by apply andb_true_iff in H1 as [H1 H1'%negb_true_iff].
  - intros (H1 & H1' & H2) k Hk.
    rewrite !elem_of_cons, elem_of_nil in Hk.
    destruct Hk as [-> | [-> | []]]; cbn.
    + by rewrite H1, H1'.
    + by apply bool_decide_eq_true.
Qed.

Lemma progressive_mp4_kws_spec s :
  (∀ k, k ∈ [progressive; file_extension mp4] -> kw_matches k s = true)
  <-> is_progressive s = true ∧ subtype s = mp4.
Proof.
  split.
  - intros H.
    pose proof (H progressive ltac:(set_solver)) as H1.
    pose proof (H (file_extension mp4) ltac:(set_solver)) as H2.
    cbn in H1, H2. by apply bool_decide_eq_true in H2.
  - intros [H1 H2] k Hk.
    rewrite !elem_of_cons, elem_of_nil in Hk.
    destruct Hk as [-> | [-> | []]]; cbn; [done |].
    by apply bool_decide_eq_true.
Qed.

Lemma progressive_kw_spec s :
  (∀ k, k ∈ [progressive] -> kw_matches k s = true) <-> is_progressive s = true.
Proof.
  split.
  - intros H. apply (H progressive). left.
  - intros H k ->%list_elem_of_singleton. done.
Qed.

(** What [_get_audio_stream] returns on a stream list. *)
Lemma get_audio_stream_unfold yt all :
  yt_streams yt = Ok all ->
  _get_audio_stream w yt
  = last (order_by w attr_abr (sq_filter [only_audio; file_extension mp4] all)).
Proof.
  intros E. unfold _get_audio_stream. rewrite E, first_desc.
  by destruct (last _).
Qed.

(** C6: among the audio-only streams of the target container, the one
    returned reports the highest bitrate; with no audio-only stream of
    the target container the answer is [None]. *)
Theorem audio_stream_highest_bitrate (yt : YT) (all : StreamQuery) :
  yt_streams yt = Ok all ->
  ((∀ s, s ∈ all -> ¬ audio_only_mp4 s) -> _get_audio_stream w yt = None)
  ∧ ((∃ s, s ∈ all ∧ audio_only_mp4 s ∧ is_Some (abr s)) ->
     ∃ m, _get_audio_stream w yt = Some m)
  ∧ (∀ m, _get_audio_stream w yt = Some m ->
       m ∈ all ∧ audio_only_mp4 m
       ∧ highest w attr_abr (sq_filter [only_audio; file_extension mp4] all) m
       ∧ ∀ t, t ∈ sq_filter [only_audio; file_extension mp4] all
              <-> t ∈ all ∧ audio_only_mp4 t).
Proof.
  intros E. rewrite (get_audio_stream_unfold yt all E).
  split; [| split].
  - intros Hno. apply order_by_last_None.
    intros s [Hs Hk]%sq_filter_elem_of. destruct (Hno s Hs).
    by apply audio_kws_spec.
  - intros (s & Hs & Ha & Habr).
    apply (order_by_last_Some attr_abr _ s); [| done].
    apply sq_filter_elem_of. split; [done | by apply audio_kws_spec].
  - intros m Hm. apply order_by_last_highest in Hm as Hh.
    pose proof Hh as ([Hin Hk]%sq_filter_elem_of & _).
    split; [done |]. split; [by apply audio_kws_spec |]. split; [done |].
    intros t. by rewrite sq_filter_elem_of, audio_kws_spec.
Qed.


(** *** The fallback of [download_mp4] *)

Lemma fallback_stream_None yt all st :
  yt_streams yt = Ok all ->
  fallback_stream w yt None st
  = (Ok (match last (order_by w attr_resolution
                       (sq_filter [progressive; file_extension mp4] all)) with
         | Some s => Some s
         | None => get_highest_resolution w all
         end), st).
Proof.
  intros E. unfold fallback_stream, bind, lift. rewrite E.
  unfold first, desc. rewrite head_reverse. by destruct (last _).
Qed.

(** The run of [download_mp4] once the stream is chosen. *)
Lemma download_mp4_run self url filename res st yt title (sel : option Stream) :
  YouTube w url = Ok yt -> yt_title yt = Ok title ->
  fallback_stream w yt (_get_video_stream w yt res) st = (Ok sel, st) ->
  download_mp4 w self url filename res st
  = try_except
      (match sel with
       | None => raise (none_has_no (lit "resolution"))
       | Some video_stream =>
           let! file_path :=
             download w video_stream (Some (output_path self))
               (stem_of filename title) in
           ensure_mp4 w file_path
       end)
      (fun e => raise (failed_video e)) st.
Proof.
  intros Hyt Ht Hsel. unfold download_mp4, try_except, bind at 1 2 3 4, lift.
  rewrite Hyt. destruct filename as [f |]; cbn [default_filename].
  - unfold ret at 1. rewrite Hsel, Ht. done.
  - unfold bind at 1, lift, ret at 1. rewrite Ht, Hsel. done.
Qed.

Lemma ensure_mp4_journal file_path st :
  journal (ensure_mp4 w file_path st).2 = journal st.
Proof.
  unfold ensure_mp4. destruct (negb _); [| done].
  unfold bind, os_rename. by destruct (files st !! file_path).
Qed.

Lemma download_mp4_journal self url filename res st yt title m :
  YouTube w url = Ok yt -> yt_title yt = Ok title ->
  fallback_stream w yt (_get_video_stream w yt res) st = (Ok (Some m), st) ->
  journal (download_mp4 w self url filename res st).2
  = journal st ++ [CallDownload m (Some (output_path self))
                     (stem_of filename title)].
Proof.
  intros Hyt Ht Hsel.
  rewrite (download_mp4_run self url filename res st yt title (Some m)) by done.
  unfold try_except, bind, download, external.
  destruct (stream_download w m _ _ (files st)) as [[fp | e] fs']; [| done].
  match goal with
  | |- context [ensure_mp4 w fp ?s] =>
      pose proof (ensure_mp4_journal fp s) as Hj;
      destruct (ensure_mp4 w fp s) as [[p | e] s']
  end; exact Hj.
Qed.

(** C5: when no stream matches the resolution asked, [download_mp4]
    transfers a highest-resolution progressive stream of the target
    container; only when there is no progressive stream of the target
    container does it transfer the provider's own highest-resolution
    stream, chosen among the progressive streams of any container. *)
Theorem mp4_fallback (self : YouTubeDownloader) (url : str)
    (filename : option str) (res : str) (st : State)
    (yt : YT) (all : StreamQuery) (title : str) :
  YouTube w url = Ok yt -> yt_streams yt = Ok all -> yt_title yt = Ok title ->
  _get_video_stream w yt res = None ->
  let stem := stem_of filename title in
  let out := download_mp4 w self url filename res st in
  ((∃ s, s ∈ all ∧ progressive_mp4 s) ->
     ∃ m, m ∈ all ∧ progressive_mp4 m
          ∧ highest w attr_resolution
              (sq_filter [progressive; file_extension mp4] all) m
          ∧ journal out.2
            = journal st ++ [CallDownload m (Some (output_path self)) stem])
  ∧ ((∀ s, s ∈ all -> ¬ progressive_mp4 s) ->
     match get_highest_resolution w all with
     | Some m =>
         journal out.2
         = journal st ++ [CallDownload m (Some (output_path self)) stem]
         ∧ m ∈ all ∧ is_progressive m = true
         ∧ highest w attr_resolution (sq_filter [progressive] all) m
     | None => out = (Raise (failed_video (none_has_no (lit "resolution"))), st)
     end)
  ∧ (∀ t, (t ∈ sq_filter [progressive; file_extension mp4] all
           <-> t ∈ all ∧ is_progressive t = true ∧ subtype t = mp4)
          ∧ (t ∈ sq_filter [progressive] all
             <-> t ∈ all ∧ is_progressive t = true)).
Proof.
  intros Hyt Hall Ht Hnone stem out.
  pose proof (fallback_stream_None yt all st Hall) as Hfb.
  rewrite <- Hnone in Hfb at 1.
  split; [| split].
  - intros (s & Hs & Hp & Hmp4 & Hres).
    destruct (order_by_last_Some attr_resolution
                (sq_filter [progressive; file_extension mp4] all) s)
      as [m Hm]; [| done |].
    { apply sq_filter_elem_of. split; [done |].
      by apply progressive_mp4_kws_spec. }
    rewrite Hm in Hfb. exists m.
    pose proof (order_by_last_highest _ _ _ Hm) as Hh.
    pose proof Hh as ([Hin Hk]%sq_filter_elem_of & Hr & _).
    apply progressive_mp4_kws_spec in Hk as [? ?].
    split; [done |]. split; [done |]. split; [done |].
    subst out stem. by apply (download_mp4_journal _ _ _ _ _ yt title).
  - intros Hno.
    assert (last (order_by w attr_resolution
                    (sq_filter [progressive; file_extension mp4] all)) = None)
      as Hl.
    { apply order_by_last_None. intros s [Hs Hk]%sq_filter_elem_of.
      apply progressive_mp4_kws_spec in Hk as [? ?].
      destruct (getattr attr_resolution s) eqn:Hr; [| done].
      destruct (Hno s Hs). split; [done |]. split; [done |].
      cbn in Hr. rewrite Hr. eauto. }
    rewrite Hl in Hfb.
    destruct (get_highest_resolution w all) as [m |] eqn:Hg.
    + split; [subst out stem; by apply (download_mp4_journal _ _ _ _ _ yt title) |].
      unfold get_highest_resolution, last_ in Hg.
      pose proof (order_by_last_highest _ _ _ Hg) as Hh.
      pose proof Hh as ([Hin Hk]%sq_filter_elem_of & _).
      apply progressive_kw_spec in Hk. done.
    + subst out.
      by rewrite (download_mp4_run self url filename res st yt title None).
  - intros t. by rewrite !sq_filter_elem_of, progressive_mp4_kws_spec,
      progressive_kw_spec.
Qed.

End Selection.

(** ** Running the download functions *)

Section Runs.

Variable w : World.

Lemma bind_Ok {A B} (m : M A) (k : A -> M B) st b st' :
  bind m k st = (Ok b, st') ->
  ∃ a st1, m st = (Ok a, st1) ∧ k a st1 = (Ok b, st').
Proof.
  unfold bind. destruct (m st) as [[a | e] st1]; [eauto | done].
Qed.

Lemma try_raise_Ok {A} (body : M A) (f : exn -> exn) st a st' :
  try_except body (fun e => raise (f e)) st = (Ok a, st') ->
  body st = (Ok a, st').
Proof.
  unfold try_except, raise. by destruct (body st) as [[x | e] st1].
Qed.

Lemma lift_Ok {A} (r : result A) st a st' :
  lift r st = (Ok a, st') -> r = Ok a ∧ st' = st.
Proof. unfold lift. by intros [= -> ->]. Qed.

Lemma external_Ok {A} (c : call) (f : FS -> result A * FS) st a st' :
  external c f st = (Ok a, st') ->
  ∃ fs', f (files st) = (Ok a, fs')
         ∧ st' = {| files := fs'; journal := journal st ++ [c] |}.
Proof.
  unfold external. destruct (f (files st)) as [r fs']. intros [= -> <-]. eauto.
Qed.

Lemma default_filename_Ok yt filename st f st' :
  default_filename yt filename st = (Ok f, st') ->
  st' = st
  ∧ match filename with
    | Some g => f = g
    | None => ∃ title, yt_title yt = Ok title ∧ f = _sanitize_filename title
    end.
Proof.
  destruct filename as [g |]; cbn [default_filename].
  - unfold ret. by intros [= -> ->].
  - intros (t & st1 & [-> ->]%lift_Ok & [= <- <-])%bind_Ok. eauto.
Qed.

Lemma fallback_stream_state yt sel st :
  (fallback_stream w yt sel st).2 = st.
Proof.
  unfold fallback_stream. destruct sel; [done |].
  unfold bind, lift. destruct (yt_streams yt); [| done].
  by destruct (first _).
Qed.

Lemma endswith_app (s suffix : str) : endswith (s ++ suffix) suffix = true.
Proof.
  unfold endswith. apply bool_decide_eq_true.
  rewrite length_app.
  replace (length s + length suffix - length suffix)%nat with (length s) by lia.
  apply drop_app_length.
Qed.

Lemma app_dot_mp4_ne (s : str) : s ≠ s ++ dot_mp4.
Proof.
  intros E. apply (f_equal length) in E. rewrite length_app in E.
  cbn in E. lia.
Qed.

Lemma ensure_mp4_Ok file_path st p st' :
  ensure_mp4 w file_path st = (Ok p, st') ->
  (endswith file_path dot_mp4 = true ∧ p = file_path ∧ st' = st)
  ∨ (endswith file_path dot_mp4 = false ∧ p = file_path ++ dot_mp4
     ∧ ∃ content, files st !! file_path = Some content
         ∧ st' = {| files := <[p := content]> (delete file_path (files st));
                    journal := journal st |}).
Proof.
  unfold ensure_mp4. destruct (endswith file_path dot_mp4); cbn [negb].
  - unfold ret. intros [= <- <-]. by left.
  - unfold bind, os_rename, ret.
    destruct (files st !! file_path) as [content |]; [| done].
    intros [= <- <-]. right. eauto.
Qed.

Lemma ensure_mp4_has_suffix file_path st :
  endswith file_path dot_mp4 = true ->
  ensure_mp4 w file_path st = (Ok file_path, st).
Proof. intros He. unfold ensure_mp4. by rewrite He. Qed.

Lemma ensure_mp4_renames file_path st content :
  endswith file_path dot_mp4 = false ->
  files st !! file_path = Some content ->
  ensure_mp4 w file_path st
  = (Ok (file_path ++ dot_mp4),
     {| files := <[file_path ++ dot_mp4 := content]> (delete file_path (files st));
        journal := journal st |}).
Proof.
  intros He Hc. unfold ensure_mp4. rewrite He. cbn [negb].
  unfold bind, os_rename, ret. by rewrite Hc.
Qed.

Lemma ensure_mp4_missing file_path st :
  endswith file_path dot_mp4 = false ->
  files st !! file_path = None ->
  ensure_mp4 w file_path st
  = (Raise (no_such_file w file_path (Some (file_path ++ dot_mp4))), st).
Proof.
  intros He Hc. unfold ensure_mp4. rewrite He. cbn [negb].
  unfold bind, os_rename. by rewrite Hc.
Qed.

(** The run of [download_mp4] once the transfer has returned a path. *)
Lemma download_mp4_transferred self url filename res st yt title s file_path fs1 :
  YouTube w url = Ok yt -> yt_title yt = Ok title ->
  fallback_stream w yt (_get_video_stream w yt res) st = (Ok (Some s), st) ->
  stream_download w s (Some (output_path self)) (stem_of filename title) (files st)
  = (Ok file_path, fs1) ->
  download_mp4 w self url filename res st
  = try_except (ensure_mp4 w file_path) (fun e => raise (failed_video e))
      {| files := fs1;
         journal := journal st
                    ++ [CallDownload s (Some (output_path self))
                          (stem_of filename title)] |}.
Proof.
  intros Hyt Ht Hsel Hd.
  rewrite (download_mp4_run w self url filename res st yt title (Some s)) by done.
  unfold try_except, bind, download, external. by rewrite Hd.
Qed.

(** What a successful run of [download_mp4] went through. *)
Lemma download_mp4_Ok self url filename res st p st' :
  download_mp4 w self url filename res st = (Ok p, st') ->
  ∃ yt title s file_path fs1,
    YouTube w url = Ok yt ∧ yt_title yt = Ok title
    ∧ fallback_stream w yt (_get_video_stream w yt res) st = (Ok (Some s), st)
    ∧ stream_download w s (Some (output_path self)) (stem_of filename title)
        (files st) = (Ok file_path, fs1)
    ∧ journal st'
      = journal st
          ++ [CallDownload s (Some (output_path self)) (stem_of filename title)]
    ∧ ((endswith file_path dot_mp4 = true ∧ p = file_path ∧ files st' = fs1)
       ∨ (endswith file_path dot_mp4 = false ∧ p = file_path ++ dot_mp4
          ∧ ∃ content, fs1 !! file_path = Some content
              ∧ files st' = <[p := content]> (delete file_path fs1))).
Proof.
  intros H%try_raise_Ok.
  apply bind_Ok in H as (yt & st1 & [Hyt ->]%lift_Ok & H).
  apply bind_Ok in H as (stem & st1 & [-> Hstem]%default_filename_Ok & H).
  apply bind_Ok in H as (sel & st1 & Hsel & H).
  pose proof (fallback_stream_state yt (_get_video_stream w yt res) st) as Hst.
  rewrite Hsel in Hst. cbn in Hst. subst st1.
  apply bind_Ok in H as (title & st1 & [Ht ->]%lift_Ok & H).
  destruct sel as [s |]; [| done].
  apply bind_Ok in H as (file_path & st1 & Hd & H).
  apply external_Ok in Hd as (fs1 & Hd & ->).
  assert (stem = stem_of filename title) as ->.
  { destruct filename as [f |]; cbn [stem_of]; [done |].
    destruct Hstem as (t & Ht' & ->). congruence. }
  exists yt, title, s, file_path, fs1.
  apply ensure_mp4_Ok in H
    as [(He & -> & ->) | (He & -> & content & Hc & ->)]; cbn in *.
  - repeat (split; [done |]). by left.
  - repeat (split; [done |]). right. eauto.
Qed.

(** C9: after a successful transfer [download_mp4] returns a path that
    ends in [.mp4].  When the transfer's path already does, that path is
    returned and the files are as the transfer left them.  When it does
    not, the file the transfer wrote is renamed to that path followed by
    [.mp4]: the new path holds its content, the old path holds nothing, no
    other path changes, and the new path is what is returned (with no
    file at the transfer's path the rename raises and the call fails).
    Conversely, every path the function returns arose in one of the two
    ways. *)
Theorem mp4_path_normalized (self : YouTubeDownloader) (url : str)
    (filename : option str) (res : str) (st : State) :
  (∀ yt title s file_path fs1,
     YouTube w url = Ok yt -> yt_title yt = Ok title ->
     fallback_stream w yt (_get_video_stream w yt res) st = (Ok (Some s), st) ->
     stream_download w s (Some (output_path self)) (stem_of filename title)
       (files st) = (Ok file_path, fs1) ->
     let called :=
       journal st
         ++ [CallDownload s (Some (output_path self)) (stem_of filename title)] in
     (endswith file_path dot_mp4 = true ->
        download_mp4 w self url filename res st
        = (Ok file_path, {| files := fs1; journal := called |}))
     ∧ (endswith file_path dot_mp4 = false ->
        ∀ content, fs1 !! file_path = Some content ->
          let renamed := <[file_path ++ dot_mp4 := content]> (delete file_path fs1) in
          download_mp4 w self url filename res st
          = (Ok (file_path ++ dot_mp4), {| files := renamed; journal := called |})
          ∧ endswith (file_path ++ dot_mp4) dot_mp4 = true
          ∧ renamed !! (file_path ++ dot_mp4) = Some content
          ∧ renamed !! file_path = None
          ∧ ∀ q, q ≠ file_path -> q ≠ file_path ++ dot_mp4 ->
                 renamed !! q = fs1 !! q)
     ∧ (endswith file_path dot_mp4 = false -> fs1 !! file_path = None ->
        download_mp4 w self url filename res st
        = (Raise (failed_video
                    (no_such_file w file_path (Some (file_path ++ dot_mp4)))),
           {| files := fs1; journal := called |})))
  ∧ (∀ p st',
       download_mp4 w self url filename res st = (Ok p, st') ->
       endswith p dot_mp4 = true
       ∧ ∃ s stem file_path fs1,
           stream_download w s (Some (output_path self)) stem (files st)
           = (Ok file_path, fs1)
           ∧ (endswith file_path dot_mp4 = true -> p = file_path ∧ files st' = fs1)
           ∧ (endswith file_path dot_mp4 = false ->
                p = file_path ++ dot_mp4
                ∧ is_Some (fs1 !! file_path)
                ∧ files st' !! p = fs1 !! file_path
                ∧ files st' !! file_path = None
                ∧ ∀ q, q ≠ file_path -> q ≠ p -> files st' !! q = fs1 !! q)).
Proof.
  split.
  - intros yt title s file_path fs1 Hyt Ht Hsel Hd called.
    pose proof (download_mp4_transferred self url filename res st yt title s
                  file_path fs1 Hyt Ht Hsel Hd) as Hrun.
    fold called in Hrun. split; [| split].
    + intros He. rewrite Hrun. unfold try_except.
      by rewrite (ensure_mp4_has_suffix file_path _ He).
    + intros He content Hc renamed. split; [| split; [| split; [| split]]].
      * rewrite Hrun. unfold try_except.
        by rewrite (ensure_mp4_renames file_path (Build_State fs1 _) content He Hc).
      * apply endswith_app.
      * apply lookup_insert_eq.
      * unfold renamed.
        rewrite lookup_insert_ne by (apply not_eq_sym, app_dot_mp4_ne).
        apply lookup_delete_eq.
      * intros q Hq Hq'. unfold renamed. rewrite lookup_insert_ne by done.
        by rewrite lookup_delete_ne.
    + intros He Hc. rewrite Hrun. unfold try_except.
      by rewrite (ensure_mp4_missing file_path (Build_State fs1 _) He Hc).
  - intros p st' H. apply download_mp4_Ok in H
      as (yt & title & s & file_path & fs1 & _ & _ & _ & Hd & _ & Hcase).
    destruct Hcase as [(He & -> & ->) | (He & -> & content & Hc & ->)].
    + split; [done |]. exists s, (stem_of filename title), file_path, fs1.
      split; [done |]. split; [done | congruence].
    + split; [apply endswith_app |].
      exists s, (stem_of filename title), file_path, fs1.
      split; [done |]. split; [congruence |]. intros _.
      split; [done |]. split; [eauto |].
      split; [by rewrite lookup_insert_eq |].
      split.
      * rewrite lookup_insert_ne by (apply not_eq_sym, app_dot_mp4_ne).
        apply lookup_delete_eq.
      * intros q Hq Hq'. rewrite lookup_insert_ne by done.
        by rewrite lookup_delete_ne.
Qed.

(** *** The audio path *)

(** C7: when no audio stream is selected, [download_mp3] raises the
    audio-download failure that carries the cause, and has touched
    nothing: no other stream is tried, no file written, no call made. *)
Theorem no_audio_stream_fatal (self : YouTubeDownloader) (url : str)
    (filename : option str) (st : State) (yt : YT) :
  YouTube w url = Ok yt ->
  (filename = None -> ∃ title, yt_title yt = Ok title) ->
  _get_audio_stream w yt = None ->
  download_mp3 w self url filename st = (Raise (failed_audio no_audio_stream), st)
  ∧ exn_str (failed_audio no_audio_stream)
    = lit "Failed to download audio: No suitable audio stream found".
Proof.
  intros Hyt Ht Hnone. split; [| reflexivity].
  unfold download_mp3, try_except, bind, lift. rewrite Hyt.
  destruct filename as [f |]; cbn [default_filename].
  - unfold ret. by rewrite Hnone.
  - destruct (Ht eq_refl) as [title Ht'].
    unfold bind, lift, ret. by rewrite Ht', Hnone.
Qed.


Lemma NamedTemporaryFile_run suffix st :
  NamedTemporaryFile w suffix st
  = (Ok (temp_stem w (files st) ++ suffix),
     {| files := <[temp_stem w (files st) ++ suffix := []]> (files st);
        journal := journal st |}).
Proof. reflexivity. Qed.

Lemma os_unlink_Ok path st u st' :
  os_unlink w path st = (Ok u, st') ->
  st' = {| files := delete path (files st); journal := journal st |}.
Proof.
  unfold os_unlink. destruct (files st !! path); [| done]. by intros [= _ <-].
Qed.

(** A successful [download_mp3]: the calls it made, the path it
    returns, and the temporary file gone. *)
Lemma download_mp3_Ok self url filename st p st' :
  download_mp3 w self url filename st = (Ok p, st') ->
  let temp := temp_stem w (files st) ++ dot_mp4 in
  ∃ yt stem m clip,
    YouTube w url = Ok yt
    ∧ match filename with
      | Some g => stem = g
      | None => ∃ title, yt_title yt = Ok title ∧ stem = _sanitize_filename title
      end
    ∧ _get_audio_stream w yt = Some m
    ∧ p = os_path_join (output_path self) (stem ++ dot_mp3)
    ∧ journal st'
      = journal st ++ [CallDownload m None temp; CallAudioFileClip temp;
                       CallWriteAudiofile clip p; CallClose clip]
    ∧ files st' !! temp = None.
Proof.
  intros H%try_raise_Ok temp.
  apply bind_Ok in H as (yt & st1 & [Hyt ->]%lift_Ok & H).
  apply bind_Ok in H as (stem & st1 & [-> Hstem]%default_filename_Ok & H).
  destruct (_get_audio_stream w yt) as [m |] eqn:Hm; [| done].
  apply bind_Ok in H as (_t & st1 & [_ ->]%lift_Ok & H).
  apply bind_Ok in H as (temp_path & st1 & Htmp & H).
  rewrite NamedTemporaryFile_run in Htmp. injection Htmp as <- <-.
  fold temp in H.
  apply bind_Ok in H as (_p & st1 & (fs1 & _ & ->)%external_Ok & H).
  apply bind_Ok in H as (clip & st2 & (fs2 & _ & ->)%external_Ok & H).
  apply bind_Ok in H as (_u & st3 & (fs3 & _ & ->)%external_Ok & H).
  apply bind_Ok in H as (_v & st4 & (fs4 & _ & ->)%external_Ok & H).
  apply bind_Ok in H as (_x & st5 & ->%os_unlink_Ok & H).
  injection H as <- <-. cbn.
  exists yt, stem, m, clip. repeat split; try done.
  - by rewrite <- !app_assoc.
  - apply lookup_delete_eq.
Qed.

Lemma default_filename_title yt title :
  yt_title yt = Ok title ->
  default_filename yt None = default_filename yt (Some (_sanitize_filename title)).
Proof. intros Ht. cbn [default_filename]. rewrite Ht. reflexivity. Qed.

Lemma download_mp4_default self url res st yt title :
  YouTube w url = Ok yt -> yt_title yt = Ok title ->
  download_mp4 w self url None res st
  = download_mp4 w self url (Some (_sanitize_filename title)) res st.
Proof.
  intros Hyt Ht. unfold download_mp4. cbv [try_except bind lift].
  rewrite Hyt. by rewrite (default_filename_title yt title Ht).
Qed.

Lemma download_mp3_default self url st yt title :
  YouTube w url = Ok yt -> yt_title yt = Ok title ->
  download_mp3 w self url None st
  = download_mp3 w self url (Some (_sanitize_filename title)) st.
Proof.
  intros Hyt Ht. unfold download_mp3. cbv [try_except bind lift].
  rewrite Hyt. by rewrite (default_filename_title yt title Ht).
Qed.

Lemma download_mp4_journal_cases self url filename res st :
  journal (download_mp4 w self url filename res st).2 = journal st
  ∨ ∃ m stem,
      journal (download_mp4 w self url filename res st).2
      = journal st ++ [CallDownload m (Some (output_path self)) stem]
      ∧ match filename with
        | Some g => stem = g
        | None => ∃ yt title, YouTube w url = Ok yt ∧ yt_title yt = Ok title
                              ∧ stem = _sanitize_filename title
        end.
Proof.
  destruct (YouTube w url) as [yt | e] eqn:Hyt.
  2: { left. unfold download_mp4, try_except, bind, lift. by rewrite Hyt. }
  destruct (yt_title yt) as [title | e] eqn:Ht.
  2: { left. unfold download_mp4, try_except, bind at 1 2, lift. rewrite Hyt.
       pose proof (fallback_stream_state yt (_get_video_stream w yt res) st) as Hs.
       destruct filename as [f |]; cbn [default_filename].
       - unfold ret at 1, bind.
         destruct (fallback_stream w yt _ st) as [[sel | e'] st1];
           cbn in Hs; subst st1; [| done]. by rewrite Ht.
       - unfold bind at 1, lift. by rewrite Ht. }
  pose proof (fallback_stream_state yt (_get_video_stream w yt res) st) as Hs.
  destruct (fallback_stream w yt (_get_video_stream w yt res) st)
    as [[sel | e] st1] eqn:Hsel; cbn in Hs; subst st1.
  - destruct sel as [m |].
    + right. exists m, (stem_of filename title). split.
      * by apply (download_mp4_journal w _ _ _ _ _ yt title).
      * destruct filename; cbn; eauto.
    + left. by rewrite (download_mp4_run w self url filename res st yt title None).
  - left. unfold download_mp4, try_except, bind at 1 2, lift. rewrite Hyt.
    destruct filename as [f |]; cbn [default_filename].
    + unfold ret at 1, bind. by rewrite Hsel.
    + unfold bind at 1 2, lift, ret at 1. by rewrite Ht, Hsel.
Qed.


(** C10: a stem given by the caller is used as it is.  [download_mp3]
    returns the output directory joined with the stem and [.mp3], and
    hands that path to the encoder.  [download_mp4] hands the stem to the
    transfer as the file name, and the path it returns is the path the
    transfer gave back for that name, followed by [.mp4] when it lacks it.
    A call with no stem is the call with the sanitized title as stem, the
    only use of the sanitizer; so a stem with a colon yields an output
    path with a colon. *)
Theorem caller_stem_verbatim (self : YouTubeDownloader) (url stem res : str)
    (st : State) :
  (∀ p st', download_mp3 w self url (Some stem) st = (Ok p, st') ->
     p = os_path_join (output_path self) (stem ++ dot_mp3)
     ∧ ∃ m clip,
         journal st'
         = journal st
             ++ [CallDownload m None (temp_stem w (files st) ++ dot_mp4);
                 CallAudioFileClip (temp_stem w (files st) ++ dot_mp4);
                 CallWriteAudiofile clip p; CallClose clip])
  ∧ (journal (download_mp4 w self url (Some stem) res st).2 = journal st
     ∨ ∃ m, journal (download_mp4 w self url (Some stem) res st).2
            = journal st ++ [CallDownload m (Some (output_path self)) stem])
  ∧ (∀ yt title, YouTube w url = Ok yt -> yt_title yt = Ok title ->
       download_mp4 w self url None res st
       = download_mp4 w self url (Some (_sanitize_filename title)) res st
       ∧ download_mp3 w self url None st
         = download_mp3 w self url (Some (_sanitize_filename title)) st)
  ∧ (∃ c, c ∈ invalid_chars ∧ c ∈ lit "a:b"
          ∧ c ∈ lit "./downloads/a:b.mp3" ∧ c ∈ lit "./downloads/a:b.mp4"
          ∧ (download_mp3 (Demo.world [Demo.a128] true) Demo.downloads
               Demo.url (Some (lit "a:b")) Demo.start).1
            = Ok (lit "./downloads/a:b.mp3")
          ∧ (download_mp4 (Demo.world [Demo.p720] true) Demo.downloads
               Demo.url (Some (lit "a:b")) (lit "720p") Demo.start).1
            = Ok (lit "./downloads/a:b.mp4"))
  ∧ (∀ p st', download_mp4 w self url (Some stem) res st = (Ok p, st') ->
       ∃ s file_path fs1,
         stream_download w s (Some (output_path self)) stem (files st)
         = (Ok file_path, fs1)
         ∧ p = (if endswith file_path dot_mp4 then file_path
                else file_path ++ dot_mp4)
         ∧ journal st'
           = journal st ++ [CallDownload s (Some (output_path self)) stem])
  ∧ (∀ yt title s file_path fs1 content,
       YouTube w url = Ok yt -> yt_title yt = Ok title ->
       fallback_stream w yt (_get_video_stream w yt res) st = (Ok (Some s), st) ->
       stream_download w s (Some (output_path self)) stem (files st)
       = (Ok file_path, fs1) ->
       fs1 !! file_path = Some content ->
       (download_mp4 w self url (Some stem) res st).1
       = Ok (if endswith file_path dot_mp4 then file_path
             else file_path ++ dot_mp4)).
Proof.
  split; [| split; [| split; [| split; [| split]]]].
  - intros p st' H. apply download_mp3_Ok in H
      as (yt & stem' & m & clip & _ & -> & _ & -> & Hj & _).
    split; [done |]. by exists m, clip.
  - destruct (download_mp4_journal_cases self url (Some stem) res st)
      as [H | (m & stem' & H & ->)]; [by left | right; by exists m].
  - intros yt title Hyt Ht.
    split; [by apply (download_mp4_default _ _ _ _ yt)
           | by apply (download_mp3_default _ _ _ yt)].
  - exists 58. repeat split; try (vm_compute; reflexivity);
      apply list_elem_of_In; cbn; tauto.
  - intros p st' H. apply download_mp4_Ok in H
      as (yt & title & s & file_path & fs1 & _ & _ & _ & Hd & Hj & Hcase).
    cbn [stem_of] in Hd, Hj. exists s, file_path, fs1.
    split; [done |]. split; [| done].
    destruct Hcase as [(-> & -> & _) | (-> & -> & _)]; done.
  - intros yt title s file_path fs1 content Hyt Ht Hsel Hd Hc.
    rewrite (download_mp4_transferred self url (Some stem) res st yt title s
               file_path fs1 Hyt Ht Hsel Hd).
    unfold try_except. destruct (endswith file_path dot_mp4) eqn:He.
    + by rewrite (ensure_mp4_has_suffix file_path _ He).
    + by rewrite (ensure_mp4_renames file_path (Build_State fs1 _) content He Hc).
Qed.

(** *** The temporary file *)

(** When the encoder raises, [download_mp3] raises too and leaves the
    files as the encoder left them: [os.unlink] is not reached. *)
Lemma download_mp3_encoder_raises self url filename st yt title m
    file_path fs1 clip fs2 e fs3 :
  let temp := temp_stem w (files st) ++ dot_mp4 in
  let output := os_path_join (output_path self)
                  (stem_of filename title ++ dot_mp3) in
  YouTube w url = Ok yt -> yt_title yt = Ok title ->
  _get_audio_stream w yt = Some m ->
  stream_download w m None temp (<[temp := []]> (files st)) = (Ok file_path, fs1) ->
  AudioFileClip w temp fs1 = (Ok clip, fs2) ->
  write_audiofile w clip output fs2 = (Raise e, fs3) ->
  download_mp3 w self url filename st
  = (Raise (failed_audio e),
     {| files := fs3;
        journal := journal st ++ [CallDownload m None temp;
                                  CallAudioFileClip temp;
                                  CallWriteAudiofile clip output] |}).
Proof.
  intros temp output Hyt Ht Hm Hd Hc Hw.
  unfold download_mp3. cbv [try_except bind lift]. rewrite Hyt.
  assert (default_filename yt filename st = (Ok (stem_of filename title), st))
    as ->.
  { destruct filename; cbn [default_filename stem_of]; [done |].
    cbv [bind lift ret]. by rewrite Ht. }
  rewrite Hm, Ht, NamedTemporaryFile_run. fold temp.
  cbv [download external]. cbn [files journal]. rewrite Hd.
  cbv beta iota zeta. cbn [files journal]. rewrite Hc.
  cbv beta iota zeta. cbn [files journal]. fold output. rewrite Hw.
  cbv [raise]. by rewrite <- !app_assoc.
Qed.

(** C8: [get_video_info] never raises.  When the metadata fetch fails it
    returns the empty dictionary; otherwise the dictionary of title,
    author, length, views, publish date and description, the
    description cut to 200 characters and an ellipsis when longer. *)
Theorem get_video_info_never_raises (url : str) (st : State) :
  (∃ d, get_video_info w url st = (Ok d, st))
  ∧ (fetch_fails w url -> get_video_info w url st = (Ok ∅, st))
  ∧ (∀ yt title author len views date description,
       YouTube w url = Ok yt ->
       yt_title yt = Ok title -> yt_author yt = Ok author ->
       yt_length yt = Ok len -> yt_views yt = Ok views ->
       yt_publish_date yt = Ok date -> yt_description yt = Ok description ->
       get_video_info w url st
       = (Ok (info_dict title author len views date (shorten description)), st))
  ∧ (∀ s, (200 < length s)%nat -> shorten (Some s) = PyStr (take 200 s ++ lit "..."))
  ∧ (∀ s, (length s <= 200)%nat -> shorten (Some s) = PyStr s)
  ∧ shorten None = PyNone.
Proof.
  assert (∀ yt d, yt_description yt = Ok d ->
            description_entry yt st = (Ok (shorten d), st)) as Hdesc.
  { intros yt d Hd. unfold description_entry. cbv [bind lift]. rewrite Hd.
    destruct d as [[| x r] |]; [done | | done].
    unfold shorten. by destruct (200 <? length (x :: r))%nat. }
  assert (∀ yt e, yt_description yt = Raise e ->
            description_entry yt st = (Raise e, st)) as Hdesc'.
  { intros yt e Hd. unfold description_entry. cbv [bind lift]. by rewrite Hd. }
  split; [| split; [| split; [| split; [| split]]]].
  - unfold get_video_info. cbv [try_except bind lift ret].
    destruct (YouTube w url) as [yt |]; [| eauto].
    destruct (yt_title yt); [| eauto]. destruct (yt_author yt); [| eauto].
    destruct (yt_length yt); [| eauto]. destruct (yt_views yt); [| eauto].
    destruct (yt_publish_date yt); [| eauto].
    destruct (yt_description yt) as [d | e] eqn:Hd.
    + rewrite (Hdesc yt d Hd). eauto.
    + rewrite (Hdesc' yt e Hd). eauto.
  - unfold fetch_fails, get_video_info. cbv [try_except bind lift ret].
    destruct (YouTube w url) as [yt |]; [| done].
    intros H.
    destruct (yt_title yt); [| done]. destruct (yt_author yt); [| done].
    destruct (yt_length yt); [| done]. destruct (yt_views yt); [| done].
    destruct (yt_publish_date yt); [| done].
    destruct (yt_description yt) as [d | e] eqn:Hd.
    + destruct H as [[? [=]] | [[? [=]] | [[? [=]] | [[? [=]] | [[? [=]] | [? [=]]]]]]].
    + by rewrite (Hdesc' yt e Hd).
  - intros yt title author len views date d Hyt Ht Ha Hl Hv Hp Hd.
    unfold get_video_info. cbv [try_except bind lift ret].
    rewrite Hyt, Ht, Ha, Hl, Hv, Hp, (Hdesc yt d Hd). done.
  - intros s Hs. unfold shorten.
    by rewrite (proj2 (Nat.ltb_lt _ _) Hs).
  - intros s Hs. unfold shorten.
    by rewrite (proj2 (Nat.ltb_ge _ _) Hs).
  - done.
Qed.

End Runs.

(** C1: in an environment where the transfer succeeds and the encoder
    raises, [download_mp3] fails with the audio-download failure and the
    temporary file, absent before the call, is still on disk after it. *)
Theorem temp_file_left_when_encoder_raises :
  let out := download_mp3 (Demo.world [Demo.a96; Demo.a128; Demo.a160] false)
               Demo.downloads Demo.url None Demo.start in
  out.1 = Raise (failed_audio (Exception (lit "encoder failed")))
  ∧ files Demo.start !! lit "/tmp/tmpk3x9.mp4" = None
  ∧ files out.2 !! lit "/tmp/tmpk3x9.mp4" = Some Demo.payload.
Proof. repeat split; vm_compute; reflexivity. Qed.

(** ** The claims at concrete inputs *)

Module Examples.
Import Demo.

(** Settles a statement about every stream of a concrete list. *)
Ltac each_stream :=
  let s := fresh "s" in
  let Hs := fresh "Hs" in
  intros s Hs; apply list_elem_of_In in Hs; vm_compute in Hs;
  repeat (destruct Hs as [<- | Hs]; [vm_compute; intuition congruence |]);
  destruct Hs.

(** The audio example of the specification: of 96, 128 and 160 kbps the
    160 kbps stream is selected. *)
Example audio_160 :
  _get_audio_stream (world [] true) (video_of [a96; a128; a160]) = Some a160.
Proof. vm_compute. reflexivity. Qed.

(** The fallback example: 1080p asked, progressive 720p the best there
    is in the target container. *)
Example fallback_720 :
  journal (download_mp4 (world [p360; p720; w1080] true) downloads url None
             (lit "1080p") start).2
  = [CallDownload p720 (Some (lit "./downloads")) (lit "What is 2_2_")].
Proof. vm_compute. reflexivity. Qed.

(** With no progressive stream of the target container, the provider's
    highest-resolution stream is taken, here a webm one. *)
Example fallback_any_container :
  journal (download_mp4 (world [g360; v1080] true) downloads url
             (Some (lit "clip")) (lit "720p") start).2
  = [CallDownload g360 (Some (lit "./downloads")) (lit "clip")].
Proof. vm_compute. reflexivity. Qed.

(** A successful [download_mp3] leaves no temporary file. *)
Example mp3_clean :
  map_to_list (files (download_mp3 (world [a96; a128] true) downloads url
                        (Some (lit "song")) start).2)
  = [(lit "./downloads/song.mp3", [73; 68; 51])].
Proof. vm_compute. reflexivity. Qed.

(** The three cases of the priority order on one catalogue: 720p has a
    progressive match, 1080p only an adaptive one, 144p none. *)
Lemma video_stream_priority_witness :
  (∃ m, _get_video_stream (world [] true) (video_of catalogue) (lit "720p") = Some m
        ∧ m ∈ catalogue ∧ progressive_match (lit "720p") m)
  ∧ (∃ m, _get_video_stream (world [] true) (video_of catalogue) (lit "1080p") = Some m
          ∧ m ∈ catalogue ∧ adaptive_match (lit "1080p") m)
  ∧ _get_video_stream (world [] true) (video_of catalogue) (lit "144p") = None.
Proof.
  split; [| split].
  - apply (video_stream_priority (world [] true) (video_of catalogue)
             catalogue (lit "720p") eq_refl).
    exists p720. split; [| by vm_compute].
    apply list_elem_of_In. cbn. tauto.
  - apply (video_stream_priority (world [] true) (video_of catalogue)
             catalogue (lit "1080p") eq_refl).
    + each_stream.
    + exists v1080. split; [| by vm_compute].
      apply list_elem_of_In. cbn. tauto.
  - apply (video_stream_priority (world [] true) (video_of catalogue)
             catalogue (lit "144p") eq_refl); each_stream.
Defined.

(** Audio selection among three audio streams and a video stream. *)
Lemma audio_stream_highest_bitrate_witness :
  ∃ m, _get_audio_stream (world [] true) (video_of [a96; a160; a128; p720]) = Some m
       ∧ m ∈ [a96; a160; a128; p720] ∧ audio_only_mp4 m
       ∧ highest (world [] true) attr_abr
           (sq_filter [only_audio; file_extension mp4] [a96; a160; a128; p720]) m.
Proof.
  destruct (audio_stream_highest_bitrate (world [] true)
              (video_of [a96; a160; a128; p720]) [a96; a160; a128; p720] eq_refl)
    as (_ & Hsome & Hbest).
  destruct Hsome as [m Hm].
  - exists a96. split; [apply list_elem_of_In; cbn; tauto |].
    split; [by vm_compute | by exists (lit "96kbps")].
  - exists m. split; [exact Hm |].
    destruct (Hbest m Hm) as (Hin & Hao & Hh & _). auto.
Defined.

(** 1080p asked, progressive 360p and 720p on offer. *)
Lemma mp4_fallback_witness :
  ∃ m, m ∈ [p360; p720; w1080] ∧ progressive_mp4 m
       ∧ highest (world [p360; p720; w1080] true) attr_resolution
           (sq_filter [progressive; file_extension mp4] [p360; p720; w1080]) m
       ∧ journal (download_mp4 (world [p360; p720; w1080] true) downloads url
                    None (lit "1080p") start).2
         = journal start
             ++ [CallDownload m (Some (output_path downloads))
                   (stem_of None (lit "What is 2*2? "))].
Proof.
  apply (mp4_fallback (world [p360; p720; w1080] true) downloads url None
           (lit "1080p") start (video_of [p360; p720; w1080])
           [p360; p720; w1080] (lit "What is 2*2? ") eq_refl eq_refl eq_refl).
  - vm_compute. reflexivity.
  - exists p360. split; [apply list_elem_of_In; cbn; tauto |].
    split; [reflexivity |]. split; [reflexivity |]. by exists (lit "360p").
Defined.

(** A video with no audio-only stream. *)
Lemma no_audio_stream_fatal_witness :
  download_mp3 (world [p720; v1080] true) downloads url None start
  = (Raise (failed_audio no_audio_stream), start)
  ∧ exn_str (failed_audio no_audio_stream)
    = lit "Failed to download audio: No suitable audio stream found".
Proof.
  apply (no_audio_stream_fatal (world [p720; v1080] true) downloads url None
           start (video_of [p720; v1080]) eq_refl).
  - intros _. by exists (lit "What is 2*2? ").
  - vm_compute. reflexivity.
Defined.

(** The transfer writes the stem as given, without extension; the file
    ends up under the stem followed by [.mp4], and nowhere else. *)
Lemma mp4_path_normalized_witness :
  download_mp4 (world [p720] true) downloads url None (lit "720p") start
  = (Ok (lit "./downloads/What is 2_2_.mp4"),
     {| files := <[lit "./downloads/What is 2_2_.mp4" := payload]>
                   (delete (lit "./downloads/What is 2_2_")
                      (<[lit "./downloads/What is 2_2_" := payload]> ∅));
        journal := [CallDownload p720 (Some (lit "./downloads"))
                      (lit "What is 2_2_")] |})
  ∧ endswith (lit "./downloads/What is 2_2_.mp4") dot_mp4 = true
  ∧ files (download_mp4 (world [p720] true) downloads url None (lit "720p")
             start).2 !! lit "./downloads/What is 2_2_" = None.
Proof.
  destruct (mp4_path_normalized (world [p720] true) downloads url None
              (lit "720p") start) as [Hforward Hback].
  destruct (Hforward (video_of [p720]) (lit "What is 2*2? ") p720
              (lit "./downloads/What is 2_2_")
              (<[lit "./downloads/What is 2_2_" := payload]> ∅)
              eq_refl eq_refl) as (_ & Hrename & _).
  - vm_compute. reflexivity.
  - reflexivity.
  - destruct (Hrename eq_refl payload) as (Hrun & Hends & _ & Hgone & _).
    + vm_compute. reflexivity.
    + split; [exact Hrun |]. split; [exact Hends |].
      destruct (Hback _ _ Hrun) as (_ & s & stem & file_path & fs1 & _).
      rewrite Hrun. exact Hgone.
Defined.

(** A fetch that fails, and a description of 201 characters. *)
Lemma get_video_info_witness :
  get_video_info offline url start = (Ok ∅, start)
  ∧ get_video_info wordy url start
    = (Ok (info_dict (lit "t") (lit "a") 1 2 None
             (PyStr (replicate 200 120 ++ lit "..."))), start).
Proof.
  split.
  - by apply (get_video_info_never_raises offline url start).
  - destruct (get_video_info_never_raises wordy url start)
      as (_ & _ & Hinfo & _).
    apply (Hinfo _ _ _ _ _ _ _ eq_refl eq_refl eq_refl eq_refl eq_refl
             eq_refl eq_refl).
Defined.

(** A stem with a colon, and the default stem of a title. *)
Lemma caller_stem_verbatim_witness :
  lit "./downloads/a:b.mp3" = os_path_join (output_path downloads) (lit "a:b" ++ dot_mp3)
  ∧ download_mp3 (world [a128] true) downloads url None start
    = download_mp3 (world [a128] true) downloads url
        (Some (lit "What is 2_2_")) start
  ∧ (download_mp4 (world [p720] true) downloads url (Some (lit "a:b"))
       (lit "720p") start).1
    = Ok (lit "./downloads/a:b.mp4").
Proof.
  destruct (caller_stem_verbatim (world [a128] true) downloads url (lit "a:b")
              (lit "720p") start) as (Hmp3 & _ & Hnone & _).
  destruct (caller_stem_verbatim (world [p720] true) downloads url (lit "a:b")
              (lit "720p") start) as (_ & _ & _ & _ & _ & Hmp4).
  split; [| split].
  - apply (Hmp3 (lit "./downloads/a:b.mp3")
             (download_mp3 (world [a128] true) downloads url
                (Some (lit "a:b")) start).2).
    vm_compute. reflexivity.
  - apply (Hnone (video_of [a128]) (lit "What is 2*2? ") eq_refl eq_refl).
  - apply (Hmp4 (video_of [p720]) (lit "What is 2*2? ") p720
             (lit "./downloads/a:b") (<[lit "./downloads/a:b" := payload]> ∅)
             payload eq_refl eq_refl).
    + vm_compute. reflexivity.
    + reflexivity.
    + vm_compute. reflexivity.
Defined.

End Examples.

(** * Further properties *)

(** ** The sanitizer: empty results, fixed points, output paths *)

Section SanitizerMore.

Lemma isspace_subst_char (c : char) : isspace (subst_char c) = isspace c.
Proof.
  unfold subst_char. case_bool_decide as Hin; [| done].
  unfold invalid_chars in Hin. rewrite !elem_of_cons, elem_of_nil in Hin.
  repeat (destruct Hin as [-> | Hin]; [reflexivity |]). destruct Hin.
Qed.

Lemma lstrip_all_space (s : str) :
  Forall (fun c => isspace c = true) s -> lstrip s = [].
Proof.
  induction 1 as [| c r Hc _ IH]; cbn [lstrip]; [done |]. by rewrite Hc.
Qed.

Lemma strip_nil_iff (s : str) :
  strip s = [] <-> Forall (fun c => isspace c = true) s.
Proof.
  split.
  - intros E. destruct (strip_split s) as (pre & post & Hs & Hpre & Hpost).
    rewrite E in Hs. rewrite Hs. cbn. by apply Forall_app.
  - intros H. unfold strip. by rewrite lstrip_all_space.
Qed.

(** X1: the sanitizer gives the empty string exactly for the inputs made
    of whitespace only (the empty input among them); a replaced character
    counts as content. *)
Theorem sanitize_empty_iff (name : str) :
  _sanitize_filename name = [] <-> Forall (fun c => isspace c = true) name.
Proof.
  rewrite sanitize_unfold, strip_nil_iff, Forall_map.
  apply Forall_iff. intros c. cbn. by rewrite isspace_subst_char.
Qed.

(** X2: the names the sanitizer leaves alone are exactly those that hold
    none of the nine characters and have no whitespace at either end. *)
Theorem sanitize_fixed_iff (name : str) :
  _sanitize_filename name = name
  <-> (∀ c, c ∈ name -> c ∉ invalid_chars) ∧ trimmed name.
Proof.
  split.
  - intros E. split.
    + intros c Hc. rewrite <- E in Hc. by apply sanitize_valid in Hc.
    + rewrite <- E, sanitize_unfold. apply strip_trimmed.
  - intros [Hvalid Htrim]. rewrite sanitize_unfold, map_subst_id by done.
    by apply strip_id.
Qed.

Lemma os_path_join_relative (a b : str) :
  head b ≠ Some 47 ->
  os_path_join a b
  = match a with
    | [] => b
    | _ => if endswith a (lit "/") then a ++ b else a ++ lit "/" ++ b
    end.
Proof.
  intros Hb. unfold os_path_join.
  destruct b as [| c r]; [done |].
  destruct c as [| p]; [done |].
  do 6 (destruct p as [p | p |]; try done).
Qed.

Lemma os_path_join_prefix (a b : str) :
  head b ≠ Some 47 -> a `prefix_of` os_path_join a b.
Proof.
  intros Hb. rewrite (os_path_join_relative a b Hb).
  destruct a as [| x a']; [apply prefix_nil |].
  destruct (endswith _ _); by apply prefix_app_r.
Qed.

Lemma os_path_join_absolute (a r : str) : os_path_join a (47 :: r) = 47 :: r.
Proof. reflexivity. Qed.

End SanitizerMore.

(** ** Stream selection: what is returned, and which of several *)

Section SortMore.

Context {A : Type} (leb : A -> A -> bool).

Lemma insert_sorted_last_keep (a : A) (l : list A) m :
  last l = Some m -> leb a m = true -> last (insert_sorted leb a l) = Some m.
Proof.
  intros Hl Ha. induction l as [| y r IH]; [done |].
  cbn [insert_sorted]. destruct (leb a y) eqn:Hay.
  - by rewrite last_cons, Hl.
  - destruct r as [| z r'].
    + cbn in Hl. injection Hl as ->. congruence.
    + rewrite last_cons_cons in Hl. specialize (IH Hl).
      rewrite last_cons, IH. done.
Qed.

Lemma insert_sorted_above (x : A) (l : list A) :
  (∀ y, y ∈ l -> leb x y = false) -> insert_sorted leb x l = l ++ [x].
Proof.
  induction l as [| y r IH]; intros H; cbn [insert_sorted]; [done |].
  rewrite (H y) by left. rewrite IH; [done |].
  intros z Hz. apply H. by right.
Qed.

(** In a stable ascending sort the last place goes to the element that
    nothing after it reaches and nothing before it exceeds. *)
Lemma sorted_last_split (l1 l2 : list A) m :
  (∀ y, y ∈ l1 -> leb y m = true) ->
  (∀ y, y ∈ l2 -> leb m y = false) ->
  last (sorted leb (l1 ++ m :: l2)) = Some m.
Proof.
  intros H1 H2. induction l1 as [| a r IH]; cbn [app sorted fold_right].
  - fold (sorted leb l2). rewrite insert_sorted_above; [apply last_snoc |].
    intros y Hy%sorted_elem_of. by apply H2.
  - fold (sorted leb (r ++ m :: l2)). apply insert_sorted_last_keep.
    + apply IH. intros y Hy. apply H1. by right.
    + apply H1. left.
Qed.

End SortMore.

Section SelectionMore.

Variable w : World.

Lemma sq_filter_split kws (q1 q2 : StreamQuery) m :
  (∀ k, k ∈ kws -> kw_matches k m = true) ->
  sq_filter kws (q1 ++ m :: q2) = sq_filter kws q1 ++ m :: sq_filter kws q2.
Proof.
  intros Hm. unfold sq_filter. rewrite List.filter_app. cbn [List.filter].
  assert (forallb (fun k => kw_matches k m) kws = true) as ->; [| done].
  apply forallb_forall. intros k Hk. apply Hm. by apply list_elem_of_In.
Qed.

Lemma has_attribute_split a (q1 q2 : StreamQuery) m :
  is_Some (getattr a m) ->
  has_attribute a (q1 ++ m :: q2) = has_attribute a q1 ++ m :: has_attribute a q2.
Proof.
  intros Hm. unfold has_attribute. rewrite List.filter_app. cbn [List.filter].
  by rewrite bool_decide_eq_true_2.
Qed.

Lemma reported_is_Some a m z : reported w a m = Some z -> is_Some (getattr a m).
Proof. unfold reported. destruct (getattr a m); [eauto | done]. Qed.

(** Which stream ends [order_by] when the attributes are numbers: the one
    with the greatest number that comes last in the list. *)
Lemma order_by_last_split a (q1 q2 : StreamQuery) m zm :
  reported w a m = Some zm ->
  (∀ t, t ∈ q1 ++ m :: q2 -> is_Some (getattr a t) -> is_Some (reported w a t)) ->
  (∀ t zt, t ∈ q1 -> reported w a t = Some zt -> (zt <= zm)%Z) ->
  (∀ t zt, t ∈ q2 -> reported w a t = Some zt -> (zt < zm)%Z) ->
  last (order_by w a (q1 ++ m :: q2)) = Some m.
Proof.
  intros Hm Hnum H1 H2. unfold order_by.
  pose proof (reported_is_Some a m zm Hm) as Hattr.
  assert (∀ s t, attr_leb w a (has_attribute a (q1 ++ m :: q2)) s t
                 = (int_key w a s <=? int_key w a t)%Z) as Hleb.
  { intros s t. unfold attr_leb.
    by rewrite (proj2 (numeric_spec w a (q1 ++ m :: q2)) Hnum). }
  rewrite (has_attribute_split a q1 q2 m Hattr) at 2.
  apply sorted_last_split.
  - intros y [Hy Hay]%has_attribute_elem_of. rewrite Hleb.
    destruct (Hnum y) as [zy Hzy]; [apply elem_of_app; by left | done |].
    rewrite (int_key_reported w a y zy Hzy), (int_key_reported w a m zm Hm).
    apply Z.leb_le. by apply (H1 y).
  - intros y [Hy Hay]%has_attribute_elem_of. rewrite Hleb.
    destruct (Hnum y) as [zy Hzy];
      [apply elem_of_app; right; by right | done |].
    rewrite (int_key_reported w a y zy Hzy), (int_key_reported w a m zm Hm).
    apply Z.leb_gt. by apply (H2 y).
Qed.

(** X3: a stream returned by [_get_video_stream] is one of the provider's
    streams, of the target container and at the resolution asked: a
    progressive one, or an adaptive video-only one when the list holds no
    progressive match. *)
Theorem get_video_stream_sound (yt : YT) (res : str) (m : Stream) :
  _get_video_stream w yt res = Some m ->
  ∃ all, yt_streams yt = Ok all ∧ m ∈ all
         ∧ (progressive_match res m
            ∨ (adaptive_match res m ∧ ∀ s, s ∈ all -> ¬ progressive_match res s)).
Proof.
  intros H. destruct (yt_streams yt) as [all | e] eqn:E.
  2: { unfold _get_video_stream in H. by rewrite E in H. }
  exists all. split; [done |].
  rewrite (get_video_stream_unfold w yt all res E) in H.
  destruct (last (sq_filter (progressive_kws res) all)) as [s |] eqn:Hp.
  - injection H as ->.
    apply last_Some_elem_of, sq_filter_elem_of in Hp as [Hin Hk].
    split; [done |]. left. by apply progressive_kws_spec.
  - apply last_Some_elem_of, sq_filter_elem_of in H as [Hin Hk].
    split; [done |]. right. split; [by apply adaptive_kws_spec |].
    intros s Hs Hmatch. apply last_None in Hp.
    assert (s ∈ sq_filter (progressive_kws res) all) as Hin'.
    { apply sq_filter_elem_of. split; [done | by apply progressive_kws_spec]. }
    rewrite Hp in Hin'. by inversion Hin'.
Qed.

Lemma last_sq_filter_split kws (q1 q2 : StreamQuery) m :
  (∀ k, k ∈ kws -> kw_matches k m = true) ->
  (∀ s, s ∈ q2 -> ¬ ∀ k, k ∈ kws -> kw_matches k s = true) ->
  last (sq_filter kws (q1 ++ m :: q2)) = Some m.
Proof.
  intros Hm Hno. rewrite (sq_filter_split kws q1 q2 m Hm).
  assert (sq_filter kws q2 = []) as ->.
  { apply last_None. by apply last_sq_filter_None. }
  apply last_snoc.
Qed.

(** X4: of several streams that match, [_get_video_stream] returns the
    one the provider lists last: the last progressive match, and with no
    progressive match in the list the last adaptive match. *)
Theorem get_video_stream_last_listed (yt : YT) (res : str)
    (l1 l2 : StreamQuery) (m : Stream) :
  yt_streams yt = Ok (l1 ++ m :: l2) ->
  (progressive_match res m ∧ ∀ s, s ∈ l2 -> ¬ progressive_match res s)
  ∨ (adaptive_match res m
     ∧ (∀ s, s ∈ l1 ++ m :: l2 -> ¬ progressive_match res s)
     ∧ ∀ s, s ∈ l2 -> ¬ adaptive_match res s) ->
  _get_video_stream w yt res = Some m.
Proof.
  intros E H. rewrite (get_video_stream_unfold w yt _ res E).
  destruct H as [[Hm Hno] | (Hm & Hnop & Hno)].
  - rewrite last_sq_filter_split; [done | by apply progressive_kws_spec |].
    intros s Hs Hk. apply (Hno s Hs). by apply progressive_kws_spec.
  - rewrite last_sq_filter_None.
    + apply last_sq_filter_split; [by apply adaptive_kws_spec |].
      intros s Hs Hk. apply (Hno s Hs). by apply adaptive_kws_spec.
    + intros s Hs Hk. apply (Hnop s Hs). by apply progressive_kws_spec.
Qed.

(** X5: when the bitrates are numbers, [_get_audio_stream] returns the
    audio-only stream of the target container with the greatest bitrate,
    and of several with that bitrate the one the provider lists last. *)
Theorem audio_stream_last_of_highest (yt : YT) (l1 l2 : StreamQuery)
    (m : Stream) (zm : Z) :
  yt_streams yt = Ok (l1 ++ m :: l2) ->
  audio_only_mp4 m ->
  reported w attr_abr m = Some zm ->
  (∀ t, t ∈ l1 ++ m :: l2 -> audio_only_mp4 t -> is_Some (abr t) ->
        is_Some (reported w attr_abr t)) ->
  (∀ t zt, t ∈ l1 -> audio_only_mp4 t -> reported w attr_abr t = Some zt ->
           (zt <= zm)%Z) ->
  (∀ t zt, t ∈ l2 -> audio_only_mp4 t -> reported w attr_abr t = Some zt ->
           (zt < zm)%Z) ->
  _get_audio_stream w yt = Some m.
Proof.
  intros E Hm Hzm Hnum H1 H2.
  rewrite (get_audio_stream_unfold w yt _ E).
  rewrite sq_filter_split by by apply audio_kws_spec.
  apply (order_by_last_split attr_abr _ _ m zm Hzm).
  - intros t Ht Hat. rewrite <- sq_filter_split in Ht by by apply audio_kws_spec.
    apply sq_filter_elem_of in Ht as [Ht Hk]. apply Hnum; [done | | done].
    by apply audio_kws_spec.
  - intros t zt [Ht Hk]%sq_filter_elem_of Hzt.
    apply (H1 t zt Ht); [by apply audio_kws_spec | done].
  - intros t zt [Ht Hk]%sq_filter_elem_of Hzt.
    apply (H2 t zt Ht); [by apply audio_kws_spec | done].
Qed.

End SelectionMore.

(** ** The download functions: failures, fallbacks, clean-up *)

Section RunsMore.

Variable w : World.










Lemma default_filename_run yt filename st :
  (filename = None -> ∃ title, yt_title yt = Ok title) ->
  ∃ stem, default_filename yt filename st = (Ok stem, st).
Proof.
  intros Ht. destruct filename as [f |]; cbn [default_filename].
  - by exists f.
  - destruct (Ht eq_refl) as [title E]. cbv [bind lift ret]. rewrite E. eauto.
Qed.

(** X7: when the stream list cannot be fetched, [_get_video_stream]
    swallows the error, the fallback meets it again, and [download_mp4]
    fails with that cause, having transferred nothing. *)
Theorem mp4_streams_unavailable (self : YouTubeDownloader) (url : str)
    (filename : option str) (res : str) (st : State) (yt : YT) (e : exn) :
  YouTube w url = Ok yt ->
  (filename = None -> ∃ title, yt_title yt = Ok title) ->
  yt_streams yt = Raise e ->
  _get_video_stream w yt res = None
  ∧ download_mp4 w self url filename res st = (Raise (failed_video e), st).
Proof.
  intros Hyt Ht He.
  assert (_get_video_stream w yt res = None) as Hnone
    by (unfold _get_video_stream; by rewrite He).
  split; [done |].
  unfold download_mp4. cbv [try_except bind lift]. rewrite Hyt.
  destruct (default_filename_run yt filename st Ht) as [stem ->].
  rewrite Hnone. cbn [fallback_stream]. cbv [bind lift]. by rewrite He.
Qed.

(** X8: the same failure in [download_mp3] is reported as a missing
    audio stream: the cause of the failed fetch is not in the message. *)
Theorem mp3_streams_unavailable (self : YouTubeDownloader) (url : str)
    (filename : option str) (st : State) (yt : YT) (e : exn) :
  YouTube w url = Ok yt ->
  (filename = None -> ∃ title, yt_title yt = Ok title) ->
  yt_streams yt = Raise e ->
  download_mp3 w self url filename st
  = (Raise (Exception
              (lit "Failed to download audio: No suitable audio stream found")),
     st).
Proof.
  intros Hyt Ht He.
  unfold download_mp3. cbv [try_except bind lift]. rewrite Hyt.
  destruct (default_filename_run yt filename st Ht) as [stem ->].
  unfold _get_audio_stream. by rewrite He.
Qed.

(** X9: when no stream matches the resolution and no progressive stream
    reports a resolution, none of the three tiers finds a stream:
    [download_mp4] fails on the missing stream's attribute and transfers
    nothing. *)
Theorem mp4_no_stream_at_all (self : YouTubeDownloader) (url : str)
    (filename : option str) (res : str) (st : State)
    (yt : YT) (all : StreamQuery) (title : str) :
  YouTube w url = Ok yt -> yt_streams yt = Ok all -> yt_title yt = Ok title ->
  (∀ s, s ∈ all -> is_progressive s = true -> resolution s = None) ->
  (∀ s, s ∈ all -> ¬ adaptive_match res s) ->
  download_mp4 w self url filename res st
  = (Raise (Exception
              (lit "Failed to download video: 'NoneType' object has no attribute 'resolution'")),
     st).
Proof.
  intros Hyt Hall Ht Hprog Hada.
  assert (_get_video_stream w yt res = None) as Hnone.
  { rewrite (get_video_stream_unfold w yt all res Hall).
    rewrite last_sq_filter_None.
    - apply last_sq_filter_None. intros s Hs Hk. apply (Hada s Hs).
      by apply adaptive_kws_spec.
    - intros s Hs Hk. apply progressive_kws_spec in Hk as (Hp & _ & Hr).
      rewrite (Hprog s Hs Hp) in Hr. done. }
  rewrite (download_mp4_run w self url filename res st yt title None); [done .. |].
  rewrite Hnone, (fallback_stream_None w yt all st Hall).
  assert (last (order_by w attr_resolution
                  (sq_filter [progressive; file_extension mp4] all)) = None) as ->.
  { apply order_by_last_None. intros s [Hs Hk]%sq_filter_elem_of.
    apply progressive_mp4_kws_spec in Hk as [Hp _]. by apply Hprog. }
  unfold get_highest_resolution, last_.
  assert (last (order_by w attr_resolution (sq_filter [progressive] all)) = None)
    as ->; [| done].
  apply order_by_last_None. intros s [Hs Hk]%sq_filter_elem_of.
  apply progressive_kw_spec in Hk. by apply Hprog.
Qed.

(** X10: in the fallback, when the resolutions are numbers, the stream
    transferred is the progressive stream of the target container with
    the greatest resolution, and of several with that resolution the one
    the provider lists last. *)
Theorem mp4_fallback_last_of_highest (self : YouTubeDownloader) (url : str)
    (filename : option str) (res : str) (st : State) (yt : YT)
    (l1 l2 : StreamQuery) (m : Stream) (zm : Z) (title : str) :
  YouTube w url = Ok yt -> yt_title yt = Ok title ->
  yt_streams yt = Ok (l1 ++ m :: l2) ->
  _get_video_stream w yt res = None ->
  is_progressive m = true -> subtype m = mp4 ->
  reported w attr_resolution m = Some zm ->
  (∀ t, t ∈ l1 ++ m :: l2 -> is_progressive t = true -> subtype t = mp4 ->
        is_Some (resolution t) -> is_Some (reported w attr_resolution t)) ->
  (∀ t zt, t ∈ l1 -> is_progressive t = true -> subtype t = mp4 ->
           reported w attr_resolution t = Some zt -> (zt <= zm)%Z) ->
  (∀ t zt, t ∈ l2 -> is_progressive t = true -> subtype t = mp4 ->
           reported w attr_resolution t = Some zt -> (zt < zm)%Z) ->
  journal (download_mp4 w self url filename res st).2
  = journal st
      ++ [CallDownload m (Some (output_path self)) (stem_of filename title)].
Proof.
  intros Hyt Ht Hall Hnone Hp Hmp4 Hzm Hnum H1 H2.
  apply (download_mp4_journal w self url filename res st yt title m Hyt Ht).
  rewrite Hnone, (fallback_stream_None w yt _ st Hall).
  assert (∀ k, k ∈ [progressive; file_extension mp4] -> kw_matches k m = true)
    as Hk by by apply progressive_mp4_kws_spec.
  rewrite (sq_filter_split _ l1 l2 m Hk).
  rewrite (order_by_last_split w attr_resolution _ _ m zm Hzm); [done | | |].
  - intros t Ht' Hat. rewrite <- (sq_filter_split _ l1 l2 m Hk) in Ht'.
    apply sq_filter_elem_of in Ht' as [Hin Hk'].
    apply progressive_mp4_kws_spec in Hk' as [? ?]. by apply Hnum.
  - intros t zt [Hin Hk']%sq_filter_elem_of Hzt.
    apply progressive_mp4_kws_spec in Hk' as [? ?]. by apply (H1 t zt).
  - intros t zt [Hin Hk']%sq_filter_elem_of Hzt.
    apply progressive_mp4_kws_spec in Hk' as [? ?]. by apply (H2 t zt).
Qed.

End RunsMore.

(** ** The audio path: the temporary file and the output path *)

Section AudioMore.

Variable w : World.

(** X11: when the transfer raises, [download_mp3] fails with that cause
    after the one call to the transfer; [os.unlink] is not reached, so the
    files are as the transfer left them, the temporary file among them
    unless the transfer removed it. *)
Theorem mp3_transfer_raises (self : YouTubeDownloader) (url : str)
    (filename : option str) (st : State) (yt : YT) (title : str)
    (m : Stream) (e : exn) (fs1 : FS) :
  let temp := temp_stem w (files st) ++ dot_mp4 in
  YouTube w url = Ok yt -> yt_title yt = Ok title ->
  _get_audio_stream w yt = Some m ->
  stream_download w m None temp (<[temp := []]> (files st)) = (Raise e, fs1) ->
  download_mp3 w self url filename st
  = (Raise (failed_audio e),
     {| files := fs1; journal := journal st ++ [CallDownload m None temp] |}).
Proof.
  intros temp Hyt Ht Hm Hd.
  unfold download_mp3. cbv [try_except bind lift]. rewrite Hyt.
  assert (default_filename yt filename st = (Ok (stem_of filename title), st))
    as ->.
  { destruct filename; cbn [default_filename stem_of]; [done |].
    cbv [bind lift ret]. by rewrite Ht. }
  rewrite Hm, Ht, NamedTemporaryFile_run. fold temp.
  cbv [download external]. cbn [files journal]. by rewrite Hd.
Qed.

Lemma os_path_join_suffix (a b : str) : ∃ pre, os_path_join a b = pre ++ b.
Proof.
  destruct (decide (head b = Some 47)) as [Hb | Hb].
  - destruct b as [| c r]; [done |]. injection Hb as ->. by exists [].
  - rewrite (os_path_join_relative a b Hb). destruct a as [| x a'].
    + by exists [].
    + destruct (endswith _ _); [by exists (x :: a') |].
      exists ((x :: a') ++ lit "/"). by rewrite <- app_assoc.
Qed.

Lemma mp3_path_ne_temp (a stem t : str) :
  os_path_join a (stem ++ dot_mp3) ≠ t ++ dot_mp4.
Proof.
  destruct (os_path_join_suffix a (stem ++ dot_mp3)) as [pre ->].
  intros E. apply (f_equal last) in E.
  rewrite !app_assoc in E. unfold dot_mp3, dot_mp4 in E.
  change (lit ".mp3") with ([46; 109; 112] ++ [51]) in E.
  change (lit ".mp4") with ([46; 109; 112] ++ [52]) in E.
  rewrite !app_assoc, !last_snoc in E. done.
Qed.

(** X12: a successful [download_mp3] made its four external calls in
    order and then removed the temporary file, and nothing else: the
    returned path is not the temporary one, and every other path holds
    what it held when the clip was closed. *)
Theorem mp3_success_cleanup (self : YouTubeDownloader) (url : str)
    (filename : option str) (st st' : State) (p : str) :
  download_mp3 w self url filename st = (Ok p, st') ->
  let temp := temp_stem w (files st) ++ dot_mp4 in
  p ≠ temp
  ∧ files st' !! temp = None
  ∧ ∃ m clip fs3 fs4,
      close w clip fs3 = (Ok tt, fs4)
      ∧ files st' = delete temp fs4
      ∧ files st' !! p = fs4 !! p
      ∧ journal st'
        = journal st ++ [CallDownload m None temp; CallAudioFileClip temp;
                         CallWriteAudiofile clip p; CallClose clip].
Proof.
  intros H%try_raise_Ok temp.
  apply bind_Ok in H as (yt & st1 & [Hyt ->]%lift_Ok & H).
  apply bind_Ok in H as (stem & st1 & [-> Hstem]%default_filename_Ok & H).
  destruct (_get_audio_stream w yt) as [m |] eqn:Hm; [| done].
  apply bind_Ok in H as (_t & st1 & [_ ->]%lift_Ok & H).
  apply bind_Ok in H as (temp_path & st1 & Htmp & H).
  rewrite NamedTemporaryFile_run in Htmp. injection Htmp as <- <-.
  fold temp in H.
  apply bind_Ok in H as (_p & st1 & (fs1 & _ & ->)%external_Ok & H).
  apply bind_Ok in H as (clip & st2 & (fs2 & _ & ->)%external_Ok & H).
  apply bind_Ok in H as (_u & st3 & (fs3 & _ & ->)%external_Ok & H).
  apply bind_Ok in H as ([] & st4 & (fs4 & Hclose & ->)%external_Ok & H).
  apply bind_Ok in H as (_x & st5 & ->%os_unlink_Ok & H).
  injection H as <- <-. cbn [files journal].
  assert (os_path_join (output_path self) (stem ++ dot_mp3) ≠ temp) as Hne
    by apply mp3_path_ne_temp.
  split; [done |]. split; [apply lookup_delete_eq |].
  exists m, clip, fs3, fs4. split; [done |]. split; [done |].
  split; [by rewrite lookup_delete_ne |]. by rewrite <- !app_assoc.
Qed.

(** X13: when the stem comes from the title, the path returned by
    [download_mp3] is the output directory followed by one file name: the
    joined component holds no slash and the output directory is a prefix
    of the path. *)
Theorem mp3_default_path_inside (self : YouTubeDownloader) (url : str)
    (st st' : State) (p : str) :
  download_mp3 w self url None st = (Ok p, st') ->
  output_path self `prefix_of` p
  ∧ ∃ yt title, YouTube w url = Ok yt ∧ yt_title yt = Ok title
      ∧ p = os_path_join (output_path self) (_sanitize_filename title ++ dot_mp3)
      ∧ 47 ∉ _sanitize_filename title ++ dot_mp3.
Proof.
  intros H. apply download_mp3_Ok in H
    as (yt & stem & m & clip & Hyt & (title & Ht & ->) & _ & -> & _ & _).
  assert (47 ∉ _sanitize_filename title ++ dot_mp3) as Hslash.
  { rewrite elem_of_app. intros [Hin | Hin].
    - apply sanitize_valid in Hin. apply Hin.
      unfold invalid_chars. rewrite !elem_of_cons. tauto.
    - unfold dot_mp4, dot_mp3 in Hin. cbn in Hin.
      rewrite !elem_of_cons, elem_of_nil in Hin.
      by destruct Hin as [? | [? | [? | [? | []]]]]. }
  split.
  - apply os_path_join_prefix. intros Hh. apply Hslash.
    by apply head_Some_elem_of.
  - by exists yt, title.
Qed.

(** X14: a stem given by the caller that begins with a slash takes the
    place of the output directory: the path [download_mp3] returns is the
    stem followed by [.mp3]. *)
Theorem mp3_absolute_stem (self : YouTubeDownloader) (url rest : str)
    (st st' : State) (p : str) :
  download_mp3 w self url (Some (47 :: rest)) st = (Ok p, st') ->
  p = 47 :: rest ++ dot_mp3.
Proof.
  intros H. apply download_mp3_Ok in H
    as (yt & stem & m & clip & _ & -> & _ & -> & _ & _).
  reflexivity.
Qed.

(** *** The video information *)

Lemma get_video_info_cases (url : str) (st : State) :
  get_video_info w url st = (Ok ∅, st)
  ∨ ∃ title author len views date d,
      get_video_info w url st
      = (Ok (info_dict title author len views date (shorten d)), st).
Proof.
  unfold get_video_info. cbv [try_except bind lift ret].
  destruct (YouTube w url) as [yt |]; [| by left].
  destruct (yt_title yt) as [title |]; [| by left].
  destruct (yt_author yt) as [author |]; [| by left].
  destruct (yt_length yt) as [len |]; [| by left].
  destruct (yt_views yt) as [views |]; [| by left].
  destruct (yt_publish_date yt) as [date |]; [| by left].
  unfold description_entry. cbv [bind lift ret].
  destruct (yt_description yt) as [d |]; [| by left].
  right. exists title, author, len, views, date, d.
  destruct d as [[| x r] |]; [done | | done].
  unfold shorten. by destruct (200 <? length (x :: r))%nat.
Qed.

(** X15: [get_video_info] changes nothing on disk and makes no external
    call, and a description it reports has at most 203 characters. *)
Theorem video_info_description_bound (url : str) (st st' : State)
    (d : gmap string pyval) :
  get_video_info w url st = (Ok d, st') ->
  st' = st
  ∧ ∀ s, d !! "description" = Some (PyStr s) -> (length s <= 203)%nat.
Proof.
  intros H.
  destruct (get_video_info_cases url st)
    as [E | (title & author & len & views & date & desc & E)];
    rewrite E in H; injection H as <- <-; (split; [done |]); intros s Hs.
  - by rewrite lookup_empty in Hs.
  - unfold info_dict in Hs.
    rewrite !lookup_insert_ne, lookup_insert_eq in Hs by done.
    injection Hs as Hs. unfold shorten in Hs.
    destruct desc as [s0 |]; [| done].
    destruct (200 <? length s0)%nat eqn:Hlen; injection Hs as <-.
    + rewrite length_app, length_take.
      cbn [length]. lia.
    + apply Nat.ltb_ge in Hlen. lia.
Qed.

End AudioMore.

(** ** The command line *)

Section CliMore.

Variable w : World.
Variable makedirs : str -> FS -> result unit * FS.





(** X18: when the output directory cannot be created, [main] prints the
    cause after [Error: ], ends with status 1, and has made no call to
    pytube or moviepy. *)
Theorem main_makedirs_fails (args : Namespace) (st : State) (e : exn) (fs' : FS) :
  makedirs (ns_output_dir args) (files st) = (Raise e, fs') ->
  main w makedirs args st
  = ({| stdout := [lit "Error: " ++ exn_str e]; status := 1 |},
     {| files := fs'; journal := journal st |}).
Proof.
  intros Hmk. unfold main, main_try, __init__, _ensure_output_directory.
  cbv [bind ret]. cbn [output_path]. by rewrite Hmk.
Qed.

End CliMore.

(** ** The further properties at concrete inputs *)

Module MoreExamples.
Import Demo DemoCli.

(** Goes through the streams of a concrete list, computing the hypotheses
    about each. *)
Ltac by_stream :=
  let t := fresh "t" in
  let Ht := fresh "Ht" in
  intros t Ht; apply list_elem_of_In in Ht; vm_compute in Ht;
  repeat (destruct Ht as [<- | Ht];
          [intros;
           repeat match goal with
                  | H : audio_only_mp4 _ |- _ => vm_compute in H
                  | H : progressive_match _ _ |- _ => vm_compute in H
                  | H : adaptive_match _ _ |- _ => vm_compute in H
                  | H : reported _ _ _ = Some _ |- _ => vm_compute in H
                  | H : is_progressive _ = true |- _ => vm_compute in H
                  | H : _ ∧ _ |- _ => destruct H
                  | H : Some _ = Some _ |- _ => injection H as <-
                  end;
           first [discriminate | lia | (vm_compute; eauto; fail)
                  | (vm_compute; intuition congruence)] |]);
  destruct Ht.

Lemma get_video_stream_sound_witness :
  ∃ all, yt_streams (video_of catalogue) = Ok all ∧ p720 ∈ all
         ∧ (progressive_match (lit "720p") p720
            ∨ (adaptive_match (lit "720p") p720
               ∧ ∀ s, s ∈ all -> ¬ progressive_match (lit "720p") s)).
Proof.
  apply (get_video_stream_sound (world [] true) (video_of catalogue)
           (lit "720p") p720).
  vm_compute. reflexivity.
Defined.

(** Two progressive 720p streams: the second is returned. *)
Lemma get_video_stream_last_listed_witness :
  _get_video_stream (world [] true) (video_of ([v720; p720] ++ p720b :: [v1080]))
    (lit "720p") = Some p720b.
Proof.
  apply (get_video_stream_last_listed (world [] true)
           (video_of ([v720; p720] ++ p720b :: [v1080])) (lit "720p")
           [v720; p720] [v1080] p720b eq_refl).
  left. split; [by vm_compute | by_stream].
Defined.

(** Two 128 kbps streams: the second is returned. *)
Lemma audio_stream_last_of_highest_witness :
  _get_audio_stream (world [] true) (video_of ([a128; a96] ++ a128b :: [a96; p720]))
  = Some a128b.
Proof.
  apply (audio_stream_last_of_highest (world [] true)
           (video_of ([a128; a96] ++ a128b :: [a96; p720]))
           [a128; a96] [a96; p720] a128b 128%Z eq_refl).
  - by vm_compute.
  - vm_compute. reflexivity.
  - by_stream.
  - intros t zt. revert t. by_stream.
  - intros t zt. revert t. by_stream.
Defined.


(** A transfer that names a path without writing it: the rename fails,
    and the message is that of [os.rename]. *)
Example rename_missing :
  download_mp4 (phantom_transfer [p720]) downloads url (Some (lit "clip"))
    (lit "720p") start
  = (Raise (Exception
              (lit "Failed to download video: [Errno 2] No such file or directory: './downloads/clip' -> './downloads/clip.mp4'")),
     {| files := ∅;
        journal := [CallDownload p720 (Some (lit "./downloads")) (lit "clip")] |}).
Proof. vm_compute. reflexivity. Qed.

Lemma mp4_streams_unavailable_witness :
  _get_video_stream no_streams
    {| yt_title := Ok (lit "t"); yt_author := Ok (lit "a");
       yt_length := Ok 1%Z; yt_views := Ok 2%Z; yt_publish_date := Ok None;
       yt_description := Ok None;
       yt_streams := Raise (PytubeError (lit "HTTP Error 410: Gone")) |}
    (lit "720p") = None
  ∧ download_mp4 no_streams downloads url None (lit "720p") start
    = (Raise (failed_video (PytubeError (lit "HTTP Error 410: Gone"))), start).
Proof.
  apply (mp4_streams_unavailable no_streams downloads url None (lit "720p")
           start _ (PytubeError (lit "HTTP Error 410: Gone")) eq_refl).
  - intros _. by exists (lit "t").
  - reflexivity.
Defined.

Lemma mp3_streams_unavailable_witness :
  download_mp3 no_streams downloads url (Some (lit "song")) start
  = (Raise (Exception
              (lit "Failed to download audio: No suitable audio stream found")),
     start).
Proof.
  apply (mp3_streams_unavailable no_streams downloads url (Some (lit "song"))
           start _ (PytubeError (lit "HTTP Error 410: Gone")) eq_refl).
  - intros [=].
  - reflexivity.
Defined.

(** Only adaptive streams, none at the resolution asked. *)
Lemma mp4_no_stream_at_all_witness :
  download_mp4 (world [v1080; w1080; a128] true) downloads url None
    (lit "720p") start
  = (Raise (Exception
              (lit "Failed to download video: 'NoneType' object has no attribute 'resolution'")),
     start).
Proof.
  apply (mp4_no_stream_at_all (world [v1080; w1080; a128] true) downloads url
           None (lit "720p") start (video_of [v1080; w1080; a128])
           [v1080; w1080; a128] (lit "What is 2*2? ") eq_refl eq_refl eq_refl).
  - by_stream.
  - by_stream.
Defined.

(** 1080p asked; two progressive 720p streams are the best on offer. *)
Lemma mp4_fallback_last_of_highest_witness :
  journal (download_mp4 (world ([p720; p360] ++ p720b :: [w1080]) true)
             downloads url (Some (lit "clip")) (lit "1080p") start).2
  = journal start
      ++ [CallDownload p720b (Some (output_path downloads))
            (stem_of (Some (lit "clip")) (lit "What is 2*2? "))].
Proof.
  apply (mp4_fallback_last_of_highest
           (world ([p720; p360] ++ p720b :: [w1080]) true) downloads url
           (Some (lit "clip")) (lit "1080p") start
           (video_of ([p720; p360] ++ p720b :: [w1080]))
           [p720; p360] [w1080] p720b 720%Z (lit "What is 2*2? ")
           eq_refl eq_refl eq_refl).
  - vm_compute. reflexivity.
  - reflexivity.
  - reflexivity.
  - vm_compute. reflexivity.
  - by_stream.
  - intros t zt. revert t. by_stream.
  - intros t zt. revert t. by_stream.
Defined.

Lemma mp3_transfer_raises_witness :
  download_mp3 (broken_transfer [a128]) downloads url None start
  = (Raise (failed_audio (PytubeError (lit "connection reset"))),
     {| files := <[lit "/tmp/tmpk3x9.mp4" := []]> ∅;
        journal := [CallDownload a128 None (lit "/tmp/tmpk3x9.mp4")] |}).
Proof.
  apply (mp3_transfer_raises (broken_transfer [a128]) downloads url None start
           (video_of [a128]) (lit "What is 2*2? ") a128
           (PytubeError (lit "connection reset"))
           (<[lit "/tmp/tmpk3x9.mp4" := []]> ∅) eq_refl eq_refl).
  - vm_compute. reflexivity.
  - reflexivity.
Defined.

Lemma mp3_success_cleanup_witness :
  lit "./downloads/song.mp3" ≠ lit "/tmp/tmpk3x9.mp4"
  ∧ files (download_mp3 (world [a128] true) downloads url (Some (lit "song"))
             start).2 !! lit "/tmp/tmpk3x9.mp4" = None.
Proof.
  destruct (mp3_success_cleanup (world [a128] true) downloads url
              (Some (lit "song")) start
              (download_mp3 (world [a128] true) downloads url
                 (Some (lit "song")) start).2
              (lit "./downloads/song.mp3")) as (Hne & Hgone & _).
  - vm_compute. reflexivity.
  - split; [exact Hne | exact Hgone].
Defined.

Lemma mp3_default_path_inside_witness :
  output_path downloads `prefix_of` lit "./downloads/What is 2_2_.mp3".
Proof.
  apply (mp3_default_path_inside (world [a128] true) downloads url start
           (download_mp3 (world [a128] true) downloads url None start).2
           (lit "./downloads/What is 2_2_.mp3")).
  vm_compute. reflexivity.
Defined.

Lemma mp3_absolute_stem_witness :
  lit "/srv/x.mp3" = 47 :: lit "srv/x" ++ dot_mp3.
Proof.
  apply (mp3_absolute_stem (world [a128] true) downloads url (lit "srv/x") start
           (download_mp3 (world [a128] true) downloads url
              (Some (lit "/srv/x")) start).2).
  vm_compute. reflexivity.
Defined.

Lemma video_info_description_bound_witness :
  start = start
  ∧ ∀ s, info_dict (lit "t") (lit "a") 1 2 None
           (PyStr (replicate 200 120 ++ lit "...")) !! "description"
         = Some (PyStr s) -> (length s <= 203)%nat.
Proof.
  apply (video_info_description_bound wordy url start start).
  vm_compute. reflexivity.
Defined.



Lemma main_makedirs_fails_witness :
  main (world [a128] true) makedirs_denied (args "mp3" None) start
  = ({| stdout := [lit "Error: [Errno 13] Permission denied: /tmp/out"];
        status := 1 |}, start).
Proof.
  apply (main_makedirs_fails (world [a128] true) makedirs_denied
           (args "mp3" None) start
           (Exception (lit "[Errno 13] Permission denied: " ++ lit "/tmp/out")) ∅).
  reflexivity.
Defined.

(** The end-to-end run of the specification: mp3, stem song, audio streams
    of 64 and 128 kbps. *)
Example main_song :
  (main (world [audio 139 "64kbps"; a128] true) makedirs_ok
     (args "mp3" (Some (lit "song"))) start).1
  = {| stdout := [lit "Download completed: /tmp/out/song.mp3"]; status := 0 |}
  ∧ map_to_list (files (main (world [audio 139 "64kbps"; a128] true) makedirs_ok
                          (args "mp3" (Some (lit "song"))) start).2)
    = [(lit "/tmp/out/song.mp3", [73; 68; 51])].
Proof. split; vm_compute; reflexivity. Qed.

End MoreExamples.
